(** * jsonclip: the diagnosing parser and the path extractor of [index.js]

    A shallow embedding of [safeParse] and [extractPath] together with the
    JavaScript operations they are written with ([String.prototype.split],
    [RegExp.prototype.test], [parseInt], [Array.isArray], [typeof], [in],
    property access) and the built-ins they rest on ([JSON.parse],
    [JSON.stringify], [Number::toString]), followed by the properties of
    the specification that concern them.

    Conventions.
    - A JavaScript string is a [string]: a sequence of code units.
    - A JavaScript number is an IEEE-754 double, [float]; integers that are
      computed with (offsets, line and column numbers, array indices) are in
      [Z] or [nat], which is exact below 2^53.
    - A statement that can throw returns a [completion]. *)

From Stdlib Require Import Bool Arith ZArith List Ascii String Lia.
From Stdlib Require Import DecimalString.
From Stdlib Require DecimalFacts DecimalN.
From Stdlib Require Import PrimFloat Uint63 SpecFloat FloatOps.
Import ListNotations.

Local Open Scope string_scope.
Local Open Scope list_scope.

(* ================================================================== *)
(** * Strings *)
(* ================================================================== *)

Module JsString.

(** [' '.repeat(n)] and the like. *)
Fixpoint repeat (s : string) (n : nat) : string :=
  match n with
  | O => EmptyString
  | S n' => s ++ repeat s n'
  end.

(** The segment under construction is the head of the list: a code unit
    that is not a separator joins it. *)
Definition cons_head (c : ascii) (segs : list string) : list string :=
  match segs with
  | seg :: segs' => String c seg :: segs'
  | [] => [String c EmptyString]
  end.

(** [s.split(sep)] for a separator that always matches exactly one code
    unit, given as the test [is_sep]: a one-character string such as
    ['\n'], or a regular expression that is an alternation of single
    characters.  The result is never empty: the empty string splits into
    one empty segment. *)
Fixpoint split (is_sep : ascii -> bool) (s : string) : list string :=
  match s with
  | EmptyString => [EmptyString]
  | String c s' =>
      if is_sep c then EmptyString :: split is_sep s'
      else cons_head c (split is_sep s')
  end.

(** The split that the specification words, [s.split(/[...]+/)] on "one or
    more of" the separators: the separator is a maximal run of code units
    satisfying [is_sep].  [in_run] tells that the preceding code unit
    belonged to a separator, so that a further one extends it. *)
Fixpoint split_runs_from (is_sep : ascii -> bool) (in_run : bool)
         (s : string) : list string :=
  match s with
  | EmptyString => [EmptyString]
  | String c s' =>
      if is_sep c then
        if in_run then split_runs_from is_sep true s'
        else EmptyString :: split_runs_from is_sep true s'
      else cons_head c (split_runs_from is_sep false s')
  end.

Definition split_runs (is_sep : ascii -> bool) (s : string) : list string :=
  split_runs_from is_sep false s.

(** The list of segments with [p] put in front of its first segment. *)
Definition append_head (p : string) (segs : list string) : list string :=
  match segs with
  | seg :: segs' => (p ++ seg)%string :: segs'
  | [] => [p]
  end.

(** The segments one after the other: [segs.join('')]. *)
Fixpoint flatten (segs : list string) : string :=
  match segs with
  | [] => EmptyString
  | seg :: segs' => (seg ++ flatten segs')%string
  end.

(** [p !== ''] *)
Definition nonempty (p : string) : bool :=
  match p with
  | EmptyString => false
  | String _ _ => true
  end.

(** The characters of [s] that fail [p], in order. *)
Fixpoint remove (p : ascii -> bool) (s : string) : string :=
  match s with
  | EmptyString => EmptyString
  | String c s' => if p c then remove p s' else String c (remove p s')
  end.

Fixpoint forallb (p : ascii -> bool) (s : string) : bool :=
  match s with
  | EmptyString => true
  | String c s' => p c && forallb p s'
  end.

(** [\d] *)
Definition is_digit (c : ascii) : bool :=
  let n := nat_of_ascii c in (48 <=? n)%nat && (n <=? 57)%nat.

(** [/^\d+$/.test(s)] *)
Definition all_digits (s : string) : bool :=
  nonempty s && forallb is_digit s.

Definition digit_value (c : ascii) : Z := Z.of_nat (nat_of_ascii c) - 48.

Fixpoint parse_digits (acc : Z) (s : string) : Z :=
  match s with
  | EmptyString => acc
  | String c s' =>
      if is_digit c then parse_digits (10 * acc + digit_value c) s' else acc
  end.

(** [parseInt(s)] for a string that starts with a digit: the value of its
    leading decimal digits. *)
Definition parseInt (s : string) : Z := parse_digits 0 s.

(** The leading digits matched by a greedy [\d*]. *)
Fixpoint take_digits (s : string) : string :=
  match s with
  | EmptyString => EmptyString
  | String c s' => if is_digit c then String c (take_digits s') else EmptyString
  end.

(** [Some rest] when [s = p ++ rest]. *)
Fixpoint strip_prefix (p s : string) : option string :=
  match p, s with
  | EmptyString, _ => Some s
  | String a p', String b s' =>
      if Ascii.eqb a b then strip_prefix p' s' else None
  | String _ _, EmptyString => None
  end.

(** [s.split(marker)[0]] for a non-empty [marker]: what precedes its first
    occurrence, all of [s] when there is none. *)
Fixpoint before (marker s : string) : string :=
  match s with
  | EmptyString => EmptyString
  | String c s' =>
      match strip_prefix marker s with
      | Some _ => EmptyString
      | None => String c (before marker s')
      end
  end.

(** The first [n] code units. *)
Fixpoint take (n : nat) (s : string) : string :=
  match n, s with
  | S n', String c s' => String c (take n' s')
  | _, _ => EmptyString
  end.

(** [String(n)] for a non-negative integer. *)
Definition of_Z (n : Z) : string :=
  NilZero.string_of_uint (N.to_uint (Z.to_N n)).

End JsString.

(* ================================================================== *)
(** * Values, completions and the runtime *)
(* ================================================================== *)

Module Js.

Inductive exn : Type :=
| SyntaxError (message : string)
| TypeError (message : string)
| RangeError (message : string)
| Error (message : string).

(** [err.message] *)
Definition message (err : exn) : string :=
  match err with
  | SyntaxError m | TypeError m | RangeError m | Error m => m
  end.

(** The outcome of evaluating an expression or running a statement. *)
Inductive completion (A : Type) : Type :=
| Return (a : A)
| Throw (err : exn).
Arguments Return {A} a.
Arguments Throw {A} err.

Definition bind {A B : Type} (c : completion A) (k : A -> completion B)
  : completion B :=
  match c with
  | Return a => k a
  | Throw err => Throw err
  end.

Declare Scope js_scope.
Delimit Scope js_scope with js.
Notation "x <- c ;; k" := (bind c (fun x => k))
  (at level 61, c at next level, right associativity) : js_scope.

(** [a && b]: [b] is evaluated only when [a] is true. *)
Definition and_then (a : bool) (b : completion bool) : completion bool :=
  if a then b else Return false.

(** What a variable of [extractPath] can hold: [undefined], a JSON value
    (as [JSON.parse] builds it: [null], a boolean, a number, a string, an
    array, or a plain object, given by its own properties in order), or
    an object of the runtime, a prototype object or one of its methods,
    which only property access can reach. *)
#[warning="-register-all"] Inductive value (host : Type) : Type :=
| VUndefined
| VNull
| VBool (b : bool)
| VNum (n : float)
| VStr (s : string)
| VArr (elems : list (value host))
| VObj (fields : list (string * value host))
| VHost (h : host).
Arguments VUndefined {host}.
Arguments VNull {host}.
Arguments VBool {host} b.
Arguments VNum {host} n.
Arguments VStr {host} s.
Arguments VArr {host} elems.
Arguments VObj {host} fields.
Arguments VHost {host} h.

(** The part of the JavaScript runtime that property lookup depends on and
    that the program does not define: what objects and arrays inherit from
    their prototypes, and how the runtime's own objects behave.
    - [object_inherits key]: for a plain object without own property
      [key], the value of [obj[key]] when [key] is found on its prototype
      chain, [None] when it is not.
    - [array_inherits key]: the same for an array.
    - [primitive_get v key]: [v[key]] for a boolean, number or string [v].
    - [host_isArray], [host_typeof_object], [host_in], [host_get]:
      [Array.isArray(h)], [typeof h === 'object'], [key in h] and [h[key]]
      for an object [h] of the runtime; a function has
      [host_typeof_object h = false]. *)
Record Runtime : Type := {
  host : Type;
  object_inherits : string -> option (value host);
  array_inherits : string -> option (value host);
  primitive_get : value host -> string -> completion (value host);
  host_isArray : host -> bool;
  host_typeof_object : host -> bool;
  host_in : host -> string -> bool;
  host_get : host -> string -> completion (value host)
}.

(** The number of an array length or of a small non-negative integer. *)
Definition number_of_nat (n : nat) : float :=
  PrimFloat.of_uint63 (Uint63.of_Z (Z.of_nat n)).

(** Own property of a plain object: the first field named [key]. *)
Fixpoint lookup {A : Type} (key : string) (fields : list (string * A))
  : option A :=
  match fields with
  | [] => None
  | (k, v) :: fields' => if String.eqb k key then Some v else lookup key fields'
  end.

(** A property key that is an array index: the decimal digits of a
    non-negative integer without superfluous leading zero. *)
Definition canonical_index (key : string) : option nat :=
  match key with
  | String "0" EmptyString => Some O
  | String "0" _ => None
  | _ => if JsString.all_digits key
         then Some (Z.to_nat (JsString.parseInt key)) else None
  end.

Definition is_some {A : Type} (o : option A) : bool :=
  match o with Some _ => true | None => false end.

(** The value of a property that may be missing. *)
Definition or_undefined {host : Type} (o : option (value host)) : value host :=
  match o with Some v => v | None => VUndefined end.

Section Operators.

Variable R : Runtime.
#[warning="-notation-for-abbreviation"] Local Notation val := (value (host R)).

(** [v == null] *)
Definition loosely_null (v : val) : bool :=
  match v with
  | VUndefined | VNull => true
  | _ => false
  end.

(** [Array.isArray(v)] *)
Definition isArray (v : val) : bool :=
  match v with
  | VArr _ => true
  | VHost h => host_isArray R h
  | _ => false
  end.

(** [typeof v === 'object'] *)
Definition typeof_object (v : val) : bool :=
  match v with
  | VNull | VArr _ | VObj _ => true
  | VHost h => host_typeof_object R h
  | _ => false
  end.

(** Own property [key] of an array: an element, or [length]. *)
Definition array_own (elems : list val) (key : string) : option val :=
  if String.eqb key "length" then Some (VNum (number_of_nat (List.length elems)))
  else match canonical_index key with
       | Some i => nth_error elems i
       | None => None
       end.

(** [key in v]: a [TypeError] unless [v] is an object. *)
Definition has_property (key : string) (v : val) : completion bool :=
  match v with
  | VArr elems =>
      Return (is_some (array_own elems key) || is_some (array_inherits R key))
  | VObj fields =>
      Return (is_some (lookup key fields) || is_some (object_inherits R key))
  | VHost h => Return (host_in R h key)
  | _ => Throw (TypeError "Cannot use 'in' operator to search for a key in a primitive value")
  end.

(** [v[key]]: a [TypeError] when [v] is [undefined] or [null]. *)
Definition get (v : val) (key : string) : completion val :=
  match v with
  | VUndefined | VNull =>
      Throw (TypeError "Cannot read properties of undefined or null")
  | VBool _ | VNum _ | VStr _ => primitive_get R v key
  | VArr elems =>
      match array_own elems key with
      | Some x => Return x
      | None => Return (or_undefined (array_inherits R key))
      end
  | VObj fields =>
      match lookup key fields with
      | Some x => Return x
      | None => Return (or_undefined (object_inherits R key))
      end
  | VHost h => host_get R h key
  end.

(** [v[n]] for a number [n] that is a non-negative integer: the
    property key is [String(n)]. *)
Definition get_number (v : val) (n : Z) : completion val :=
  get v (JsString.of_Z n).

End Operators.

End Js.

(* ================================================================== *)
(** * Path extraction: [extractPath] *)
(* ================================================================== *)

Module Extract.

Import Js.
Local Open Scope js_scope.

(** The separators of [/\.|\[|\]/]. *)
Definition is_delim (c : ascii) : bool :=
  Ascii.eqb c "." || Ascii.eqb c "[" || Ascii.eqb c "]".

(** [path.split(/\.|\[|\]/).filter(p => p !== '')] *)
Definition path_parts (path : string) : list string :=
  filter JsString.nonempty (JsString.split is_delim path).

Section ExtractPath.

Variable R : Runtime.
#[warning="-notation-for-abbreviation"] Local Notation val := (value (host R)).

(** The [for (const part of parts)] loop followed by [return current]:
    [walk current parts] runs the iterations for [parts], starting with the
    variable [current] as given.  [Return VUndefined] is [return undefined]. *)
Fixpoint walk (current : val) (parts : list string) : completion val :=
  match parts with
  | [] => Return current
  | part :: rest =>
      if loosely_null R current then Return VUndefined
      else if isArray R current && JsString.all_digits part then
        next <- get_number R current (JsString.parseInt part) ;;
        walk next rest
      else
        found <- and_then (typeof_object R current) (has_property R part current) ;;
        if found then
          next <- get R current part ;;
          walk next rest
        else Return VUndefined
  end.

Definition extractPath (obj : val) (path : string) : completion val :=
  walk obj (path_parts path).

(** The values of a JSON document: the document, the elements of its arrays
    and the values of its objects' keys. *)
Inductive subvalue : val -> val -> Prop :=
| sub_here (v : val) : subvalue v v
| sub_elem (elems : list val) (x w : val) :
    In x elems -> subvalue x w -> subvalue (VArr elems) w
| sub_field (fields : list (string * val)) (k : string) (x w : val) :
    In (k, x) fields -> subvalue x w -> subvalue (VObj fields) w.

(** What one property read of the walk can obtain from a value: of a
    sequence an element, its [length], or what sequences inherit; of a
    mapping the value of a key, or what mappings inherit; of an object of
    the runtime one of its properties. *)
Inductive reads : val -> val -> Prop :=
| read_elem (elems : list val) (x : val) :
    In x elems -> reads (VArr elems) x
| read_length (elems : list val) :
    reads (VArr elems) (VNum (number_of_nat (List.length elems)))
| read_array_inherited (elems : list val) (key : string) (x : val) :
    array_inherits R key = Some x -> reads (VArr elems) x
| read_field (fields : list (string * val)) (k : string) (x : val) :
    In (k, x) fields -> reads (VObj fields) x
| read_object_inherited (fields : list (string * val)) (key : string) (x : val) :
    object_inherits R key = Some x -> reads (VObj fields) x
| read_host (h : host R) (key : string) (x : val) :
    host_get R h key = Return x -> reads (VHost h) x.

(** What a chain of such reads can reach. *)
Inductive reaches : val -> val -> Prop :=
| reach_here (v : val) : reaches v v
| reach_read (v x w : val) : reads v x -> reaches x w -> reaches v w.

(** A value that stops the walk: [undefined], [null], or a scalar. *)
Definition absent_or_scalar (v : val) : bool :=
  match v with
  | VUndefined | VNull | VBool _ | VNum _ | VStr _ => true
  | VArr _ | VObj _ | VHost _ => false
  end.

(** Reading a property of a runtime object that is an array or has type
    ['object'] (a prototype object, not a function) does not throw. *)
Definition host_reads_return : Prop :=
  forall (h : host R) (key : string),
    host_isArray R h = true \/ host_typeof_object R h = true ->
    exists x, host_get R h key = Return x.

End ExtractPath.

End Extract.

(* ================================================================== *)
(** * Parsing with diagnostics: [safeParse] *)
(* ================================================================== *)

Module Parse.

Import Js.
Local Open Scope js_scope.
Local Open Scope Z_scope.

Definition newline : string := String "010" EmptyString.

(** The separator of [str.split('\n')]. *)
Definition is_newline (c : ascii) : bool := Ascii.eqb c "010".

(** [/position (\d+)/] tried at the start of [s]: capture group 1. *)
Definition position_here (s : string) : option string :=
  match JsString.strip_prefix "position " s with
  | Some (String d rest) =>
      if JsString.is_digit d then Some (String d (JsString.take_digits rest))
      else None
  | _ => None
  end.

(** [message.match(/position (\d+)/)]: the leftmost match, [None] for
    [null]; the result is capture group 1, [pos[1]]. *)
Fixpoint match_position (message : string) : option string :=
  match message with
  | EmptyString => None
  | String _ rest =>
      match position_here message with
      | Some digits => Some digits
      | None => match_position rest
      end
  end.

(** The [for] loop over [lines], entered at index [i] with [chars]
    accumulated; the result is the pair of [line] and [col] after the loop,
    which are both 1 when no iteration reaches the [break]. *)
Fixpoint locate_from (lines : list string) (position i chars : Z) : Z * Z :=
  match lines with
  | [] => (1, 1)
  | l :: lines' =>
      let len := Z.of_nat (String.length l) in
      if chars + len >=? position then (i + 1, position - chars + 1)
      else locate_from lines' position (i + 1) (chars + len + 1)
  end.

Definition locate (lines : list string) (position : Z) : Z * Z :=
  locate_from lines position 0 0.

(** [' '.repeat(count)]: a [RangeError] for a negative count. *)
Definition repeat_spaces (count : Z) : completion string :=
  if count <? 0 then Throw (RangeError "Invalid count value")
  else Return (JsString.repeat " " (Z.to_nat count)).

(** The text of the rewritten error.  The emoji of the source is a pair of
    surrogate code units; here it is its UTF-8 bytes. *)
Definition diagnostic (raw : string) (line : Z) (errorLine pointer : string)
  : string :=
  JsString.before "JSON at position" raw ++ newline ++
  "   Line " ++ JsString.of_Z line ++ ": " ++ errorLine ++ newline ++
  "            " ++ pointer ++ newline ++ newline ++
  "💡 Common fixes:" ++ newline ++
  "   - Check for trailing commas" ++ newline ++
  "   - Ensure quotes around keys and string values" ++ newline ++
  "   - Verify brackets and braces are balanced".

Section SafeParse.

Variable host : Type.

(** [JSON.parse] on a string, the parser of the runtime: the value, or the
    [SyntaxError] it throws. *)
Variable JSON_parse : string -> completion (value host).

(** The [catch] block, which always ends in a [throw]. *)
Definition rethrow (str : string) (err : exn) : completion (value host) :=
  let lines := JsString.split is_newline str in
  match match_position (message err) with
  | Some digits =>
      let position := JsString.parseInt digits in
      let '(line, col) := locate lines position in
      let errorLine := nth (Z.to_nat (line - 1)) lines EmptyString in
      spaces <- repeat_spaces (col - 1) ;;
      let pointer := (spaces ++ "^")%string in
      Throw (Error (diagnostic (message err) line errorLine pointer))
  | None => Throw err
  end.

Definition safeParse (str : string) : completion (value host) :=
  match JSON_parse str with
  | Return v => Return v
  | Throw err => rethrow str err
  end.

End SafeParse.

(** ** Counting by hand *)

(** Line and column after reading [s] from line [line], column [col]: a
    newline starts the next line at column 1, any other code unit moves one
    column to the right. *)
Fixpoint count_from (s : string) (line col : Z) : Z * Z :=
  match s with
  | EmptyString => (line, col)
  | String c s' =>
      if is_newline c then count_from s' (line + 1) 1
      else count_from s' line (col + 1)
  end.

(** The line and column of offset [o] of [text], both counted from 1. *)
Definition line_col_by_hand (text : string) (o : nat) : Z * Z :=
  count_from (JsString.take o text) 1 1.

(** The characters before line [i] of [lines] (counted from 0): each earlier
    line and its newline. *)
Fixpoint chars_before (lines : list string) (i : nat) {struct i} : Z :=
  match i, lines with
  | S i', l :: lines' => Z.of_nat (String.length l) + 1 + chars_before lines' i'
  | _, _ => 0
  end.

(** The running total when line [i] is reached: the characters before it
    and its own. *)
Definition running_total (lines : list string) (i : nat) : Z :=
  chars_before lines i + Z.of_nat (String.length (nth i lines EmptyString)).

(** The index of the first line among the first [n] whose running total
    meets or exceeds [o], if there is one. *)
Fixpoint first_reaching (lines : list string) (o : Z) (n : nat) : option nat :=
  match n with
  | O => None
  | S n' =>
      match first_reaching lines o n' with
      | Some i => Some i
      | None => if running_total lines n' >=? o then Some n' else None
      end
  end.

(** Line and column as the specification words them: the 1-based index of
    the first line whose running total meets or exceeds [o], and [o] minus
    the characters before that line plus 1; line 1 and column 1 when no
    line is found. *)
Definition locate_spec (lines : list string) (o : Z) : Z * Z :=
  match first_reaching lines o (List.length lines) with
  | Some i => (Z.of_nat i + 1, o - chars_before lines i + 1)
  | None => (1, 1)
  end.

End Parse.

(* ================================================================== *)
(** * A runtime *)
(* ================================================================== *)

(** A runtime with the prototype objects of ECMAScript 2023, as Node.js
    provides them when nothing has been added to them.  The properties are
    universally quantified over the runtime; this one serves to run
    [extractPath] on concrete documents. *)
Module Node.

Import Js.

(** The objects of the runtime: [Object.prototype], [Array.prototype], the
    built-in function [owner.name] (such as [Array.prototype.map]), and
    [Unspecified] for what a function or a boxed primitive holds, which
    [extractPath] never reads. *)
Inductive builtin : Type :=
| ObjectPrototype
| ArrayPrototype
| Method (owner name : string)
| Unspecified.

Definition object_prototype_methods : list string :=
  [ "constructor"; "__defineGetter__"; "__defineSetter__"; "hasOwnProperty";
    "__lookupGetter__"; "__lookupSetter__"; "isPrototypeOf";
    "propertyIsEnumerable"; "toString"; "valueOf"; "toLocaleString" ].

Definition array_prototype_methods : list string :=
  [ "constructor"; "at"; "concat"; "copyWithin"; "fill"; "find"; "findIndex";
    "findLast"; "findLastIndex"; "lastIndexOf"; "pop"; "push"; "reverse";
    "shift"; "unshift"; "slice"; "sort"; "splice"; "includes"; "indexOf";
    "join"; "keys"; "entries"; "values"; "forEach"; "filter"; "flat";
    "flatMap"; "map"; "every"; "some"; "reduce"; "reduceRight"; "toReversed";
    "toSorted"; "toSpliced"; "with"; "toLocaleString"; "toString" ].

Definition mem (key : string) (keys : list string) : bool :=
  existsb (String.eqb key) keys.

(** [Object.prototype[key]] read on behalf of [receiver_proto], the
    prototype of the object the lookup started from, which is what the
    accessor [__proto__] returns. *)
Definition object_prototype_get (receiver_proto : value builtin) (key : string)
  : option (value builtin) :=
  if String.eqb key "__proto__" then Some receiver_proto
  else if mem key object_prototype_methods
       then Some (VHost (Method "Object.prototype" key))
       else None.

Definition array_prototype_get (receiver_proto : value builtin) (key : string)
  : option (value builtin) :=
  if mem key array_prototype_methods
  then Some (VHost (Method "Array.prototype" key))
  else object_prototype_get receiver_proto key.

Definition builtin_get (h : builtin) (key : string)
  : completion (value builtin) :=
  match h with
  | ObjectPrototype => Return (or_undefined (object_prototype_get VNull key))
  | ArrayPrototype =>
      if String.eqb key "length" then Return (VNum (number_of_nat 0))
      else Return (or_undefined
                     (array_prototype_get (VHost ObjectPrototype) key))
  | Method _ _ =>
      if String.eqb key "caller" || String.eqb key "arguments"
      then Throw (TypeError "'caller', 'callee', and 'arguments' properties may not be accessed")
      else Return (VHost Unspecified)
  | Unspecified => Return (VHost Unspecified)
  end.

Definition builtin_in (h : builtin) (key : string) : bool :=
  match h with
  | ObjectPrototype => is_some (object_prototype_get VNull key)
  | ArrayPrototype =>
      String.eqb key "length"
      || is_some (array_prototype_get (VHost ObjectPrototype) key)
  | Method _ _ =>
      mem key ["length"; "name"; "apply"; "bind"; "call"; "caller"; "arguments"]
      || is_some (object_prototype_get VNull key)
  | Unspecified => false
  end.

Definition runtime : Runtime :=
  {| host := builtin;
     object_inherits := object_prototype_get (VHost ObjectPrototype);
     array_inherits := array_prototype_get (VHost ArrayPrototype);
     primitive_get := fun _ _ => Return (VHost Unspecified);
     host_isArray := fun h =>
       match h with ArrayPrototype => true | _ => false end;
     host_typeof_object := fun h =>
       match h with ObjectPrototype | ArrayPrototype => true | _ => false end;
     host_in := builtin_in;
     host_get := builtin_get |}.

End Node.

(* ================================================================== *)
(** * JSON documents and path tokens *)
(* ================================================================== *)

Module Document.

Import Js.

(** A value as [JSON.parse] builds it: neither [undefined] nor an object
    of the runtime, at any depth. *)
Fixpoint is_json {host : Type} (v : value host) : bool :=
  match v with
  | VUndefined | VHost _ => false
  | VNull | VBool _ | VNum _ | VStr _ => true
  | VArr elems => forallb is_json elems
  | VObj fields => forallb (fun field => is_json (snd field)) fields
  end.

(** A token that names nothing but elements and own keys: it is not
    [length], and neither it nor the index it denotes names a property that
    sequences or mappings inherit. *)
Definition plain_token (R : Runtime) (part : string) : Prop :=
  part <> "length"
  /\ object_inherits R part = None
  /\ array_inherits R part = None
  /\ array_inherits R (JsString.of_Z (JsString.parseInt part)) = None.

(** The text with every code unit replaced by its image under [f]. *)
Fixpoint map_chars (f : ascii -> ascii) (s : string) : string :=
  match s with
  | EmptyString => EmptyString
  | String c s' => String (f c) (map_chars f s')
  end.

(** Every delimiter becomes a dot. *)
Definition dots (c : ascii) : ascii :=
  if Extract.is_delim c then "."%char else c.

End Document.

(* ================================================================== *)
(** * The rows of the diagnostic *)
(* ================================================================== *)

Module Rows.

Import Parse.
Local Open Scope string_scope.

(** The second row of the diagnostic, [`   Line ${line}: ${errorLine}`]. *)
Definition line_row (line : Z) (errorLine : string) : string :=
  "   Line " ++ JsString.of_Z line ++ ": " ++ errorLine.

(** The third row, [`            ${pointer}`]. *)
Definition caret_row (pointer : string) : string :=
  "            " ++ pointer.

(** The pointer for column [col]: [' '.repeat(col - 1) + '^']. *)
Definition pointer_at (col : Z) : string :=
  JsString.repeat " " (Z.to_nat (col - 1)) ++ "^".

(** The fixed block of suggestions that ends the diagnostic, from the
    blank line on. *)
Definition hints : string :=
  newline ++
  "💡 Common fixes:" ++ newline ++
  "   - Check for trailing commas" ++ newline ++
  "   - Ensure quotes around keys and string values" ++ newline ++
  "   - Verify brackets and braces are balanced".

End Rows.

(* ================================================================== *)
(** * Syntax highlighting: [highlightJson] *)
(* ================================================================== *)

Module Highlight.

Import Js.
Local Open Scope string_scope.

(** The styles of [chalk] that the program uses. *)
Inductive style : Type := Red | Green | Blue | Yellow | Cyan | Gray.

Definition quote : string := String "034" EmptyString.

Definition newline : string := String "010" EmptyString.

Section HighlightJson.

Variable R : Runtime.
#[warning="-notation-for-abbreviation"] Local Notation val := (value (host R)).

(** [chalk.red(text)] and the like: the text with the escape sequences of
    the style, as the terminal supports them. *)
Variable chalk : style -> string -> string.

(** [String(n)] for a number. *)
Variable number_to_string : float -> string.

(** [highlightJson(h, indent)] for an object [h] of the runtime. *)
Variable host_highlight : host R -> nat -> string.

(** The frame of a non-empty array or object:
    [`${open}\n${pad}  ${items.join(`,\n${pad}  `)}\n${pad}${close}`]. *)
Definition block (open close pad : string) (items : list string) : string :=
  open ++ newline ++ pad ++ "  "
  ++ String.concat ("," ++ newline ++ pad ++ "  ") items
  ++ newline ++ pad ++ close.

(** [highlightJson(value, indent)].  The keys of an object are the names
    of its fields in order, [Object.keys(value)]; [value[key]] is the value
    of the first field of that name, which the inner loop [find] looks up
    (every key is the name of a field, so its end is not reached). *)
Fixpoint highlightJson (value : val) (indent : nat) : string :=
  let pad := JsString.repeat "  " indent in
  match value with
  | VNull => chalk Red "null"
  | VStr s => chalk Green (quote ++ s ++ quote)
  | VNum n => chalk Blue (number_to_string n)
  | VBool b => chalk Yellow (if b then "true" else "false")
  | VArr elems =>
      match elems with
      | [] => "[]"
      | _ :: _ =>
          let items := map (fun item => highlightJson item (S indent)) elems in
          block "[" "]" pad items
      end
  | VObj fields =>
      let keys := map fst fields in
      match keys with
      | [] => "{}"
      | _ :: _ =>
          let entries :=
            map (fun key =>
                   chalk Cyan (quote ++ key ++ quote) ++ ": "
                   ++ (fix find (fs : list (string * val)) : string :=
                         match fs with
                         | [] => "undefined"
                         | (k, x) :: fs' =>
                             if String.eqb k key
                             then highlightJson x (S indent)
                             else find fs'
                         end) fields)
                keys in
          block "{" "}" pad entries
      end
  | VUndefined => "undefined"
  | VHost h => host_highlight h indent
  end.

(** [highlightJson(value[key], indent + 1)] for the fields of [value]:
    the inner loop of [highlightJson] on its own. *)
Definition lookup_render (indent : nat) (key : string)
  : list (string * val) -> string :=
  fix find (fs : list (string * val)) : string :=
    match fs with
    | [] => "undefined"
    | (k, x) :: fs' =>
        if String.eqb k key then highlightJson x (S indent) else find fs'
    end.

End HighlightJson.

(** The text with two more spaces after every newline. *)
Fixpoint shift (s : string) : string :=
  match s with
  | EmptyString => EmptyString
  | String c s' =>
      if Ascii.eqb c "010" then String c ("  " ++ shift s')
      else String c (shift s')
  end.

(** No newline in the text. *)
Definition one_line (s : string) : bool :=
  JsString.forallb (fun c => negb (Ascii.eqb c "010")) s.

(** No newline in any string or key of the value. *)
Fixpoint one_line_strings {host : Type} (v : value host) : bool :=
  match v with
  | VStr s => one_line s
  | VArr elems => forallb one_line_strings elems
  | VObj fields =>
      forallb (fun field => one_line (fst field) && one_line_strings (snd field))
              fields
  | _ => true
  end.

End Highlight.

(* ================================================================== *)
(** * The command line: [main] *)
(* ================================================================== *)

Module Cli.

Import Js Highlight.
Local Open Scope string_scope.

(** [jsonStr.trim()]: the white space and line terminators among the code
    units below 256. *)
Definition is_space (c : ascii) : bool :=
  let n := nat_of_ascii c in
  ((9 <=? n)%nat && (n <=? 13)%nat) || (n =? 32)%nat || (n =? 160)%nat.

Fixpoint trim_start (s : string) : string :=
  match s with
  | EmptyString => EmptyString
  | String c s' => if is_space c then trim_start s' else s
  end.

Fixpoint trim_end (s : string) : string :=
  match s with
  | EmptyString => EmptyString
  | String c s' =>
      match trim_end s' with
      | EmptyString => if is_space c then EmptyString else String c EmptyString
      | String _ _ as kept => String c kept
      end
  end.

Definition trim (s : string) : string := trim_end (trim_start s).

(** The object [options].  [path] is [None] for [null], its initial value,
    and for [undefined], which [args[++i]] yields past the end. *)
Record options : Type := {
  path : option string;
  copy : bool;
  color : bool
}.

Definition initial_options : options :=
  {| path := None; copy := false; color := true |}.

(** How the loop over the arguments ends: with the options, or in the
    branch of [--help] or of [--version], which leave the process. *)
Inductive parsed : Type :=
| Options (opts : options)
| Help
| Version.

Definition is_flag (arg short long : string) : bool :=
  String.eqb arg short || String.eqb arg long.

(** The [for] loop over [args] from the argument at hand. *)
Fixpoint parse_args (args : list string) (opts : options) : parsed :=
  match args with
  | [] => Options opts
  | arg :: rest =>
      if is_flag arg "-p" "--path" then
        match rest with
        | operand :: rest' =>
            parse_args rest' {| path := Some operand; copy := copy opts;
                                color := color opts |}
        | [] => Options {| path := None; copy := copy opts;
                           color := color opts |}
        end
      else if is_flag arg "-c" "--copy" then
        parse_args rest {| path := path opts; copy := true;
                           color := color opts |}
      else if String.eqb arg "--no-color" then
        parse_args rest {| path := path opts; copy := copy opts;
                           color := false |}
      else if is_flag arg "-h" "--help" then Help
      else if is_flag arg "-v" "--version" then Version
      else parse_args rest opts
  end.

(** The usage text, the template literal after [.trim()]. *)
Definition usage : string :=
  "jsonclip - Zero-config JSON formatter and inspector" ++ newline ++
  EmptyString ++ newline ++
  "USAGE:" ++ newline ++
  "  jsonclip [OPTIONS]" ++ newline ++
  EmptyString ++ newline ++
  "OPTIONS:" ++ newline ++
  "  -p, --path <path>    Extract value at JSONPath (e.g., user.name)" ++ newline ++
  "  -c, --copy           Write formatted JSON back to clipboard" ++ newline ++
  "  --no-color           Disable syntax highlighting" ++ newline ++
  "  -h, --help           Show this help message" ++ newline ++
  "  -v, --version        Show version number" ++ newline ++
  EmptyString ++ newline ++
  "EXAMPLES:" ++ newline ++
  "  jsonclip                           Format clipboard JSON" ++ newline ++
  "  jsonclip --path user.name          Extract nested value" ++ newline ++
  "  jsonclip --copy                    Format and copy back to clipboard" ++ newline ++
  "  cat data.json | jsonclip           Format from stdin" ++ newline ++
  "  curl -s api.example.com | jsonclip Format API response" ++ newline ++
  EmptyString ++ newline ++
  "Read more at: https://github.com/zethrus/jsonclip".

(** What the process does to the outside, in order. *)
Inductive event : Type :=
| Stdout (text : string)
| Stderr (text : string)
| ClipboardWrite (text : option string).

(** [console.log(x)] for a string or [undefined]. *)
Definition console_log (x : option string) : event :=
  match x with
  | Some text => Stdout text
  | None => Stdout "undefined"
  end.

Section Main.

Variable R : Runtime.
#[warning="-notation-for-abbreviation"] Local Notation val := (value (host R)).

(** The collaborators of [main]: [chalk], the number and function
    conversions of [String(value)], [highlightJson] on objects of the
    runtime, [JSON.parse], [JSON.stringify(value, null, 2)] (a string or
    [undefined]), the [version] of [package.json] as the template literal
    prints it (or the exception of reading it), the standard input ([None]
    when it is a terminal, else all of its data), and the clipboard: what
    [clipboardy.read()] resolves to and whether [clipboardy.write(text)]
    succeeds. *)
Record environment : Type := {
  chalk : style -> string -> string;
  number_to_string : float -> string;
  host_to_string : host R -> string;
  host_highlight : host R -> nat -> string;
  JSON_parse : string -> completion val;
  JSON_stringify : val -> option string;
  package_version : completion string;
  stdin : option string;
  clipboard_read : completion string;
  clipboard_write : option string -> completion unit
}.

Variable env : environment.

(** [String(value)]; an array is its elements joined by commas, with
    nothing for [null] and [undefined]. *)
Fixpoint to_String (value : val) : string :=
  match value with
  | VUndefined => "undefined"
  | VNull => "null"
  | VBool b => if b then "true" else "false"
  | VNum n => number_to_string env n
  | VStr s => s
  | VArr elems =>
      String.concat ","
        (map (fun item =>
                match item with
                | VUndefined | VNull => EmptyString
                | _ => to_String item
                end) elems)
  | VObj _ => "[object Object]"
  | VHost h => host_to_string env h
  end.

(** The handler of [main().catch].  The symbols that open the messages of
    [main] are written as their UTF-8 bytes. *)
Definition unexpected (trace : list event) (err : exn) : list event * Z :=
  ((trace ++ [Stderr (chalk env Red "❌ Unexpected error:");
              Stderr (chalk env Gray (message err))])%list, 1%Z).

(** Reading the input: the trimmed standard input, or the clipboard. *)
Definition acquire : completion string :=
  match stdin env with
  | Some data => Return (trim data)
  | None => clipboard_read env
  end.

(** [options.color ? highlightJson(value) : JSON.stringify(value, null, 2)] *)
Definition format (opts : options) (value : val) : option string :=
  if color opts
  then Some (highlightJson R (chalk env) (number_to_string env)
                           (host_highlight env) value 0)
  else JSON_stringify env value.

(** [if (options.path)]: a non-empty string. *)
Definition requested_path (opts : options) : option string :=
  match path opts with
  | Some (String _ _ as p) => Some p
  | _ => None
  end.

(** The part of [main] after the arguments: the events and the exit
    status of the process. *)
Definition run (opts : options) : list event * Z :=
  match acquire with
  | Throw err =>
      ([Stderr (chalk env Red "❌ Failed to read clipboard. Please copy JSON first.");
        Stderr (chalk env Gray ("   " ++ message err))], 1%Z)
  | Return EmptyString =>
      ([Stderr (chalk env Red "❌ No JSON data found.");
        Stderr (chalk env Gray "   Copy JSON to clipboard or pipe via stdin.")],
       1%Z)
  | Return jsonStr =>
      match Parse.safeParse (host R) (JSON_parse env) jsonStr with
      | Throw err =>
          ([Stderr (chalk env Red "❌ Invalid JSON:");
            Stderr (chalk env Gray (message err))], 1%Z)
      | Return data =>
          match requested_path opts with
          | Some p =>
              match Extract.extractPath R data p with
              | Throw err => unexpected [] err
              | Return VUndefined =>
                  ([Stderr (chalk env Red ("❌ Path not found: " ++ p))], 1%Z)
              | Return value =>
                  let printed := [console_log (format opts value)] in
                  if copy opts then
                    let text := if typeof_object R value
                                then JSON_stringify env value
                                else Some (to_String value) in
                    match clipboard_write env text with
                    | Throw err =>
                        unexpected (printed ++ [ClipboardWrite text])%list err
                    | Return _ =>
                        ((printed ++
                          [ClipboardWrite text;
                           Stdout (chalk env Gray "✓ Copied to clipboard")])%list,
                         0%Z)
                    end
                  else (printed, 0%Z)
              end
          | None =>
              let printed := [console_log (format opts data)] in
              if copy opts then
                let text := JSON_stringify env data in
                match clipboard_write env text with
                | Throw err =>
                    unexpected (printed ++ [ClipboardWrite text])%list err
                | Return _ =>
                    ((printed ++
                      [ClipboardWrite text;
                       Stdout (chalk env Gray "✓ Formatted JSON copied to clipboard")])%list,
                     0%Z)
                end
              else (printed, 0%Z)
          end
      end
  end.

(** [main()] with its [catch] handler, for [process.argv.slice(2)]. *)
Definition main (args : list string) : list event * Z :=
  match parse_args args initial_options with
  | Help => ([Stdout usage], 0%Z)
  | Version =>
      match package_version env with
      | Return version => ([Stdout ("jsonclip v" ++ version)], 0%Z)
      | Throw err => unexpected [] err
      end
  | Options opts => run opts
  end.

End Main.

End Cli.

(* ================================================================== *)
(** * The JSON built-ins: [JSON.parse] and [JSON.stringify] *)
(* ================================================================== *)

(** The two built-ins of the runtime that the program calls, modelled
    from the grammar of JSON (ECMA-404) and from the algorithms of
    ECMAScript: [JSON.parse(text)] without reviver and
    [JSON.stringify(value, null, 2)].  Texts and strings are sequences of
    code units below 256; the value of a text with an escape [\uXXXX] for
    a larger code unit is outside of them. *)
Module Json.

Import Js.
Local Open Scope string_scope.

Definition quote : ascii := "034".
Definition backslash : ascii := "092".

(** ** Numbers *)

(** The characters of a number literal. *)
Inductive number_char : Type :=
| Digit (d : Z)
| Minus
| Plus
| Point
| Exponent.

Definition number_char_of (c : ascii) : option number_char :=
  if JsString.is_digit c then Some (Digit (JsString.digit_value c))
  else if Ascii.eqb c "-" then Some Minus
  else if Ascii.eqb c "+" then Some Plus
  else if Ascii.eqb c "." then Some Point
  else if Ascii.eqb c "e" || Ascii.eqb c "E" then Some Exponent
  else None.

Definition is_number_char (c : ascii) : bool := is_some (number_char_of c).

(** The grammar of a number as an automaton: an optional minus; a zero,
    or a digit from 1 to 9 and any digits; optionally a point and one or
    more digits; optionally e or E, an optional sign and one or more
    digits.  A literal ends in one of the states [AtZero], [InInteger],
    [InFraction], [InExponent]. *)
Inductive number_state : Type :=
| AtStart
| AfterMinus
| AtZero
| InInteger
| AfterPoint
| InFraction
| AfterExponent
| AfterExponentSign
| InExponent.

Definition number_step (st : number_state) (k : number_char)
  : option number_state :=
  match st, k with
  | AtStart, Minus => Some AfterMinus
  | (AtStart | AfterMinus), Digit d =>
      Some (if Z.eqb d 0 then AtZero else InInteger)
  | InInteger, Digit _ => Some InInteger
  | (AtZero | InInteger), Point => Some AfterPoint
  | (AfterPoint | InFraction), Digit _ => Some InFraction
  | (AtZero | InInteger | InFraction), Exponent => Some AfterExponent
  | AfterExponent, (Minus | Plus) => Some AfterExponentSign
  | (AfterExponent | AfterExponentSign | InExponent), Digit _ =>
      Some InExponent
  | _, _ => None
  end.

Fixpoint number_run (st : number_state) (s : string) : option number_state :=
  match s with
  | EmptyString => Some st
  | String c s' =>
      match number_char_of c with
      | Some k =>
          match number_step st k with
          | Some st' => number_run st' s'
          | None => None
          end
      | None => None
      end
  end.

Definition is_number_literal (s : string) : bool :=
  match number_run AtStart s with
  | Some (AtZero | InInteger | InFraction | InExponent) => true
  | _ => false
  end.

(** The text after its leading digits. *)
Fixpoint drop_digits (s : string) : string :=
  match s with
  | EmptyString => EmptyString
  | String c s' => if JsString.is_digit c then drop_digits s' else s
  end.

(** The number [mantissa * 10 ^ exponent10] that a literal denotes, with
    its sign. *)
Definition literal_value (literal : string) : bool * Z * Z :=
  let '(negative, unsigned) :=
    match literal with
    | String "-" rest => (true, rest)
    | _ => (false, literal)
    end in
  let integer := JsString.take_digits unsigned in
  let after_integer := drop_digits unsigned in
  let '(fraction, after_fraction) :=
    match after_integer with
    | String "." rest => (JsString.take_digits rest, drop_digits rest)
    | _ => (EmptyString, after_integer)
    end in
  let exponent :=
    match after_fraction with
    | String _ (String "-" digits) => (- JsString.parseInt digits)%Z
    | String _ (String "+" digits) => JsString.parseInt digits
    | String _ digits => JsString.parseInt digits
    | EmptyString => 0%Z
    end in
  (negative,
   JsString.parseInt (integer ++ fraction),
   (exponent - Z.of_nat (String.length fraction))%Z).

(** The double nearest to [mantissa * 10 ^ exponent10], ties to even, an
    infinity past the largest double: the quotient is taken with more
    than 1200 binary digits after the point, which is past the last
    digit of every double, and rounded from there with its remainder. *)
Definition round_decimal (negative : bool) (mantissa exponent10 : Z)
  : float :=
  if Z.eqb mantissa 0 then (if negative then neg_zero else zero)
  else
    let numerator :=
      if Z.leb 0 exponent10 then (mantissa * 10 ^ exponent10)%Z
      else mantissa in
    let denominator :=
      if Z.leb 0 exponent10 then 1%Z else (10 ^ (- exponent10))%Z in
    let k := (1200 + Z.log2_up denominator)%Z in
    let scaled := (numerator * 2 ^ k)%Z in
    let quotient := (scaled / denominator)%Z in
    let remainder := (scaled mod denominator)%Z in
    let location :=
      if Z.eqb remainder 0 then loc_Exact
      else loc_Inexact (Z.compare (2 * remainder) denominator) in
    SF2Prim (binary_round_aux prec emax negative quotient (- k) location).

(** The number value of a literal. *)
Definition to_number (literal : string) : float :=
  let '(negative, mantissa, exponent10) := literal_value literal in
  round_decimal negative mantissa exponent10.

(** ** Strings *)

Definition hex_value (c : ascii) : option Z :=
  let n := Z.of_nat (nat_of_ascii c) in
  if JsString.is_digit c then Some (n - 48)%Z
  else if ((97 <=? n) && (n <=? 102))%Z then Some (n - 87)%Z
  else if ((65 <=? n) && (n <=? 70))%Z then Some (n - 55)%Z
  else None.

Definition hex_digit (n : Z) : ascii :=
  ascii_of_nat (Z.to_nat (if (n <? 10)%Z then n + 48 else n + 87)%Z).

Definition char_of_code (n : Z) : ascii := ascii_of_nat (Z.to_nat n).

Definition append_char (s : string) (c : ascii) : string :=
  s ++ String c EmptyString.

(** The character that a one-letter escape denotes. *)
Definition simple_escape (c : ascii) : option ascii :=
  if Ascii.eqb c quote then Some quote
  else if Ascii.eqb c backslash then Some backslash
  else if Ascii.eqb c "/" then Some "/"%char
  else if Ascii.eqb c "b" then Some "008"%char
  else if Ascii.eqb c "f" then Some "012"%char
  else if Ascii.eqb c "n" then Some "010"%char
  else if Ascii.eqb c "r" then Some "013"%char
  else if Ascii.eqb c "t" then Some "009"%char
  else None.

(** [QuoteJSONString] for one code unit. *)
Definition escape_char (c : ascii) : string :=
  let n := Z.of_nat (nat_of_ascii c) in
  if Ascii.eqb c quote then String backslash (String quote EmptyString)
  else if Ascii.eqb c backslash
       then String backslash (String backslash EmptyString)
  else if Z.eqb n 8 then String backslash "b"
  else if Z.eqb n 9 then String backslash "t"
  else if Z.eqb n 10 then String backslash "n"
  else if Z.eqb n 12 then String backslash "f"
  else if Z.eqb n 13 then String backslash "r"
  else if Z.ltb n 32
       then String backslash
              ("u00" ++ String (hex_digit (n / 16))
                          (String (hex_digit (n mod 16)) EmptyString))
  else String c EmptyString.

Fixpoint escape (s : string) : string :=
  match s with
  | EmptyString => EmptyString
  | String c s' => escape_char c ++ escape s'
  end.

Definition quote_string (s : string) : string :=
  String quote (escape s ++ String quote EmptyString).

(** The text after the first of the items that a separator joins. *)
Definition following (sep : string) (items : list string) : string :=
  match items with
  | [] => EmptyString
  | _ :: _ => sep ++ String.concat sep items
  end.

(** ** Objects *)

(** A key that is an array index: canonical decimal digits of an integer
    below 2^32 - 1. *)
Definition leading_zero (key : string) : bool :=
  match key with
  | String c (String _ _) => Ascii.eqb c "0"
  | _ => false
  end.

Definition array_index (key : string) : option Z :=
  if JsString.all_digits key && negb (leading_zero key)
     && (JsString.parseInt key <? 4294967295)%Z
  then Some (JsString.parseInt key) else None.

Section Values.

Variable host : Type.
#[warning="-notation-for-abbreviation"] Local Notation val := (value host).
#[warning="-notation-for-abbreviation"]
Local Notation properties := (list (string * val)).

Definition has_key (key : string) (props : properties) : bool :=
  existsb (fun field => String.eqb (fst field) key) props.

(** The value of an existing key is replaced where the key stands. *)
Fixpoint replace (key : string) (v : val) (props : properties) : properties :=
  match props with
  | [] => []
  | (k, x) :: props' =>
      if String.eqb k key then (k, v) :: props'
      else (k, x) :: replace key v props'
  end.

(** A new index key goes after the index keys that are not larger (two
    keys never have the same index) and before all other keys. *)
Fixpoint insert_index (i : Z) (key : string) (v : val) (props : properties)
  : properties :=
  match props with
  | [] => [(key, v)]
  | (k, x) :: props' =>
      match array_index k with
      | Some j =>
          if (j <=? i)%Z then (k, x) :: insert_index i key v props'
          else (key, v) :: props
      | None => (key, v) :: props
      end
  end.

(** [CreateDataProperty(object, key, v)] on the properties of an object
    in the order of [Object.keys]: indices in ascending order, then the
    other keys in the order of their creation. *)
Definition define (key : string) (v : val) (props : properties) : properties :=
  if has_key key props then replace key v props
  else match array_index key with
       | Some i => insert_index i key v props
       | None => (props ++ [(key, v)])%list
       end.

(** ** [JSON.parse] *)

(** The containers that are open: an array with the elements read so
    far, or an object with its properties so far and the key whose value
    is awaited, if any. *)
Inductive frame : Type :=
| ArrayFrame (done : list val)
| ObjectFrame (props : properties) (pending : option string).

(** Where the parser stands. *)
Inductive mode : Type :=
| Value (may_close : bool)
| Key (may_close : bool)
| Colon
| After
| Text (is_key : bool) (read : string)
| Escape (is_key : bool) (read : string)
| Unicode (is_key : bool) (read : string) (count : nat) (code : Z)
| Number (literal : string)
| Word (v : val) (remaining : string)
| Done (v : val)
| Failed.

Definition state : Type := mode * list frame.

Definition failed : state := (Failed, []).

Definition is_space (c : ascii) : bool :=
  Ascii.eqb c " " || Ascii.eqb c "009" || Ascii.eqb c "010"
  || Ascii.eqb c "013".

(** A value is complete: it is the document, the next element of the
    array, or the value of the pending key. *)
Definition deliver (v : val) (stack : list frame) : state :=
  match stack with
  | [] => (Done v, [])
  | ArrayFrame done :: stack' =>
      (After, ArrayFrame (done ++ [v])%list :: stack')
  | ObjectFrame props (Some key) :: stack' =>
      (After, ObjectFrame (define key v props) None :: stack')
  | ObjectFrame _ None :: _ => failed
  end.

(** The closing quote of a string. *)
Definition close_text (is_key : bool) (read : string) (stack : list frame)
  : state :=
  if is_key then
    match stack with
    | ObjectFrame props None :: stack' =>
        (Colon, ObjectFrame props (Some read) :: stack')
    | _ => failed
    end
  else deliver (VStr read) stack.

(** A character after a complete value. *)
Definition step_after (st : state) (c : ascii) : state :=
  match st with
  | (After, stack) =>
      if is_space c then st
      else if Ascii.eqb c "," then
        match stack with
        | ArrayFrame _ :: _ => (Value false, stack)
        | ObjectFrame _ None :: _ => (Key false, stack)
        | _ => failed
        end
      else if Ascii.eqb c "]" then
        match stack with
        | ArrayFrame done :: stack' => deliver (VArr done) stack'
        | _ => failed
        end
      else if Ascii.eqb c "}" then
        match stack with
        | ObjectFrame props None :: stack' => deliver (VObj props) stack'
        | _ => failed
        end
      else failed
  | (Done v, stack) => if is_space c then st else failed
  | _ => failed
  end.

(** A text at which a number literal ends. *)
Definition ends_number (rest : string) : bool :=
  match rest with
  | EmptyString => true
  | String c _ => negb (is_number_char c)
  end.

(** The value of a number literal that is complete. *)
Definition number_value (literal : string) : option float :=
  if is_number_literal literal then Some (to_number literal) else None.

Definition step (st : state) (c : ascii) : state :=
  let '(m, stack) := st in
  match m with
  | Value may_close =>
      match number_char_of c with
      | Some (Digit _) | Some Minus =>
          (Number (String c EmptyString), stack)
      | _ =>
          if is_space c then st
          else if Ascii.eqb c "[" then (Value true, ArrayFrame [] :: stack)
          else if Ascii.eqb c "{" then
            (Key true, ObjectFrame [] None :: stack)
          else if Ascii.eqb c "]" && may_close then
            match stack with
            | ArrayFrame [] :: stack' => deliver (VArr []) stack'
            | _ => failed
            end
          else if Ascii.eqb c quote then (Text false EmptyString, stack)
          else if Ascii.eqb c "n" then (Word VNull "ull", stack)
          else if Ascii.eqb c "t" then (Word (VBool true) "rue", stack)
          else if Ascii.eqb c "f" then (Word (VBool false) "alse", stack)
          else failed
      end
  | Key may_close =>
      if is_space c then st
      else if Ascii.eqb c quote then (Text true EmptyString, stack)
      else if Ascii.eqb c "}" && may_close then
        match stack with
        | ObjectFrame [] None :: stack' => deliver (VObj []) stack'
        | _ => failed
        end
      else failed
  | Colon =>
      if is_space c then st
      else if Ascii.eqb c ":" then (Value false, stack)
      else failed
  | After | Done _ => step_after st c
  | Text is_key read =>
      if Ascii.eqb c quote then close_text is_key read stack
      else if Ascii.eqb c backslash then (Escape is_key read, stack)
      else if (nat_of_ascii c <? 32)%nat then failed
      else (Text is_key (append_char read c), stack)
  | Escape is_key read =>
      match simple_escape c with
      | Some ch => (Text is_key (append_char read ch), stack)
      | None =>
          if Ascii.eqb c "u" then (Unicode is_key read 0 0%Z, stack)
          else failed
      end
  | Unicode is_key read count code =>
      match hex_value c with
      | Some h =>
          let code' := (16 * code + h)%Z in
          if (count <? 3)%nat then (Unicode is_key read (S count) code', stack)
          else (Text is_key (append_char read (char_of_code (code' mod 256))),
                stack)
      | None => failed
      end
  | Number literal =>
      if is_number_char c then (Number (append_char literal c), stack)
      else match number_value literal with
           | Some n => step_after (deliver (VNum n) stack) c
           | None => failed
           end
  | Word v remaining =>
      match remaining with
      | String r remaining' =>
          if Ascii.eqb c r then
            match remaining' with
            | EmptyString => deliver v stack
            | String _ _ => (Word v remaining', stack)
            end
          else failed
      | EmptyString => failed
      end
  | Failed => failed
  end.

(** The character completes an escape [\uXXXX] for a code unit that a
    string of this development cannot hold; [step] puts the low byte in
    its place. *)
Definition exceeds (st : state) (c : ascii) : bool :=
  match st with
  | (Unicode _ _ count code, _) =>
      match hex_value c with
      | Some h => negb (count <? 3)%nat && negb (16 * code + h <? 256)%Z
      | None => false
      end
  | _ => false
  end.

(** The state after a text, and whether an escape of the text, or one
    before it ([over]), exceeded the code units. *)
Fixpoint run (over : bool) (st : state) (text : string) : state * bool :=
  match text with
  | EmptyString => (st, over)
  | String c text' => run (exceeds st c || over) (step st c) text'
  end.

(** What [JSON.parse] does with a text: it returns a value; it throws a
    [SyntaxError]; or, for a text of the grammar with an escape beyond
    the code units of this development, it returns a value that is
    outside of it. *)
Inductive parsed : Type :=
| Accepted (v : val)
| Rejected
| Outside.

(** The document, when the text may end here. *)
Definition completed (st : state) : option val :=
  match st with
  | (Done v, _) => Some v
  | (Number literal, stack) =>
      match number_value literal with
      | Some n =>
          match deliver (VNum n) stack with
          | (Done v, _) => Some v
          | _ => None
          end
      | None => None
      end
  | _ => None
  end.

(** The end of the text. *)
Definition finish (result : state * bool) : parsed :=
  match completed (fst result) with
  | Some v => if snd result then Outside else Accepted v
  | None => Rejected
  end.

Definition parse (text : string) : parsed :=
  finish (run false (Value false, []) text).

(** ** [JSON.stringify(value, null, 2)] *)

Section Stringify.

(** [Number::toString] of the runtime. *)
Variable number_to_string : float -> string.

Definition number_text (n : float) : string :=
  if PrimFloat.is_finite n then number_to_string n else "null".

(** A property whose value is [undefined] or a function is left out of an
    object, and written [null] in an array.  No object of the runtime
    stands inside a value that [JSON.parse] built; one that does is taken
    as a function. *)
Definition serializable (v : val) : bool :=
  match v with
  | VUndefined | VHost _ => false
  | _ => true
  end.

(** [SerializeJSONProperty] at a nesting level, with the gap of two
    spaces.  The members of an object are its properties in order. *)
Fixpoint serialize (level : nat) (v : val) : string :=
  let pad := JsString.repeat "  " level in
  match v with
  | VUndefined | VNull | VHost _ => "null"
  | VBool b => if b then "true" else "false"
  | VNum n => number_text n
  | VStr s => quote_string s
  | VArr elems =>
      match elems with
      | [] => "[]"
      | _ :: _ => Highlight.block "[" "]" pad (map (serialize (S level)) elems)
      end
  | VObj fields =>
      match
        flat_map (fun field =>
                    if serializable (snd field)
                    then [quote_string (fst field) ++ ": "
                          ++ serialize (S level) (snd field)]
                    else [])
                 fields
      with
      | [] => "{}"
      | (_ :: _) as members => Highlight.block "{" "}" pad members
      end
  end.

(** [JSON.stringify(v, null, 2)]: [None] is [undefined]; [host_json]
    is the outcome for an object of the runtime. *)
Definition stringify (host_json : host -> option string) (v : val)
  : option string :=
  match v with
  | VUndefined => None
  | VHost h => host_json h
  | _ => Some (serialize 0 v)
  end.

(** A number that [JSON.stringify] writes as a literal which
    [JSON.parse] reads back as the same number. *)
Definition reads_back (n : float) : Prop :=
  PrimFloat.is_finite n = true
  /\ is_number_literal (number_to_string n) = true
  /\ to_number (number_to_string n) = n.

End Stringify.

(** The numbers of a value. *)
Fixpoint numbers (v : val) : list float :=
  match v with
  | VNum n => [n]
  | VArr elems => flat_map numbers elems
  | VObj fields => flat_map (fun field => numbers (snd field)) fields
  | _ => []
  end.

(** ** Values in the form that [JSON.parse] gives them *)

Definition plain_key (key : string) : bool := negb (is_some (array_index key)).

(** Index keys in ascending order, from [low] on, before all others. *)
Fixpoint ordered (low : Z) (keys : list string) : bool :=
  match keys with
  | [] => true
  | key :: keys' =>
      match array_index key with
      | Some i => (low <=? i)%Z && ordered i keys'
      | None => forallb plain_key keys'
      end
  end.

Definition normal_properties (props : properties) : Prop :=
  NoDup (map fst props) /\ ordered 0 (map fst props) = true.

(** A JSON value whose objects have distinct keys in the order of
    [Object.keys]. *)
#[warning="-register-all"] Inductive normal : val -> Prop :=
| normal_null : normal VNull
| normal_bool (b : bool) : normal (VBool b)
| normal_num (n : float) : normal (VNum n)
| normal_str (s : string) : normal (VStr s)
| normal_arr (elems : list val) :
    Forall normal elems -> normal (VArr elems)
| normal_obj (fields : properties) :
    normal_properties fields ->
    Forall (fun field => normal (snd field)) fields ->
    normal (VObj fields).

(** What the parser holds while it reads is in that form. *)
Definition frame_normal (f : frame) : Prop :=
  match f with
  | ArrayFrame done => Forall normal done
  | ObjectFrame props _ =>
      normal_properties props /\ Forall (fun field => normal (snd field)) props
  end.

Definition state_normal (st : state) : Prop :=
  match fst st with
  | Done v | Word v _ => normal v
  | _ => True
  end
  /\ Forall frame_normal (snd st).

(** The [JSON.parse] of a runtime follows the standard: it returns the
    value of a text that the grammar accepts and throws on a text that
    the grammar rejects. *)
Definition standard_parse (JSON_parse : string -> completion val) : Prop :=
  forall text : string,
    match parse text with
    | Accepted v => JSON_parse text = Return v
    | Rejected => exists err, JSON_parse text = Throw err
    | Outside => True
    end.

(** The [JSON.stringify] of a runtime follows the standard: with the
    arguments [null] and [2] it writes a JSON value as [serialize] does,
    numbers in the way of the runtime. *)
Definition standard_stringify (number_to_string : float -> string)
           (JSON_stringify : val -> option string) : Prop :=
  forall v : val,
    normal v -> JSON_stringify v = Some (serialize number_to_string 0 v).

End Values.

Arguments ArrayFrame {host} done.
Arguments ObjectFrame {host} props pending.
Arguments Value {host} may_close.
Arguments Key {host} may_close.
Arguments Colon {host}.
Arguments After {host}.
Arguments Text {host} is_key read.
Arguments Escape {host} is_key read.
Arguments Unicode {host} is_key read count code.
Arguments Number {host} literal.
Arguments Word {host} v remaining.
Arguments Done {host} v.
Arguments Failed {host}.
Arguments Accepted {host} v.
Arguments Rejected {host}.
Arguments Outside {host}.
Arguments failed {host}.
Arguments has_key {host} key props.
Arguments replace {host} key v props.
Arguments insert_index {host} i key v props.
Arguments define {host} key v props.
Arguments deliver {host} v stack.
Arguments close_text {host} is_key read stack.
Arguments step_after {host} st c.
Arguments step {host} st c.
Arguments exceeds {host} st c.
Arguments run {host} over st text.
Arguments completed {host} st.
Arguments finish {host} result.
Arguments serializable {host} v.
Arguments serialize {host} number_to_string level v.
Arguments stringify {host} number_to_string host_json v.
Arguments numbers {host} v.
Arguments normal_properties {host} props.
Arguments normal {host} v.
Arguments frame_normal {host} f.
Arguments state_normal {host} st.
Arguments standard_parse {host} JSON_parse.
Arguments standard_stringify {host} number_to_string JSON_stringify.

End Json.

(* ================================================================== *)
(** * The built-in [Number::toString] *)
(* ================================================================== *)

(** [Number::toString(x)] in radix 10, as [String(x)] and
    [JSON.stringify] apply it to a number. *)
Module Number.

Local Open Scope string_scope.

(** The positive number [m * 2 ^ e] as a fraction. *)
Definition fraction_of (m : positive) (e : Z) : Z * Z :=
  if (0 <=? e)%Z then (Zpos m * 2 ^ e, 1)%Z else (Zpos m, 2 ^ (- e))%Z.

(** [floor (x / 10 ^ p)] for the fraction [x]. *)
Definition scaled_floor (x : Z * Z) (p : Z) : Z :=
  let '(num, den) := x in
  if (0 <=? p)%Z then (num / (den * 10 ^ p))%Z
  else ((num * 10 ^ (- p)) / den)%Z.

(** The fraction [x] compared with [s * 10 ^ p]. *)
Definition compare_scaled (x : Z * Z) (s p : Z) : comparison :=
  let '(num, den) := x in
  if (0 <=? p)%Z then (num ?= s * 10 ^ p * den)%Z
  else (num * 10 ^ (- p) ?= s * den)%Z.

(** The least [n], from the given one on, with [x < 10 ^ n]. *)
Fixpoint magnitude (fuel : nat) (x : Z * Z) (n : Z) : Z :=
  match fuel with
  | O => n
  | S fuel' =>
      match compare_scaled x 1 n with
      | Lt => n
      | _ => magnitude fuel' x (n + 1)%Z
      end
  end.

(** The integers [s] and [n] of the standard: [s * 10 ^ (n - k)] has the
    number value [value], where [k] is the number of digits of [s] and
    is as small as possible; of two such [s] the one closer to the
    number, and the even one at equal distance.  The search starts at
    [k] digits; a double needs at most 17. *)
Fixpoint shortest (fuel : nat) (value : float) (x : Z * Z) (n0 : Z) (k : Z)
  : Z * Z :=
  let p := (n0 - k)%Z in
  let low := scaled_floor x p in
  let high := (low + 1)%Z in
  let is_value s := PrimFloat.eqb (Json.round_decimal false s p) value in
  let normalized s :=
    if (s =? 10 ^ k)%Z then (10 ^ (k - 1), n0 + 1)%Z else (s, n0) in
  match fuel with
  | O => (low, n0)
  | S fuel' =>
      match is_value low, is_value high with
      | true, true =>
          match compare_scaled (2 * fst x, snd x)%Z (low + high)%Z p with
          | Lt => (low, n0)
          | Gt => normalized high
          | Eq => if Z.even low then (low, n0) else normalized high
          end
      | true, false => (low, n0)
      | false, true => normalized high
      | false, false => shortest fuel' value x n0 (k + 1)%Z
      end
  end.

(** The search for [n] starts below it, at a bound from the binary
    lengths of the fraction (the logarithm of 2 is below 0.30103), and
    ends within four steps. *)
Definition digits_and_exponent (m : positive) (e : Z) : Z * Z :=
  let x := fraction_of m e in
  let below :=
    ((Z.log2 (fst x) - Z.log2 (snd x) - 1) * 30103 / 100000 - 1)%Z in
  let n0 := magnitude 8 x below in
  shortest 17 (SF2Prim (S754_finite false m e)) x n0 1%Z.

Definition drop (n : nat) (s : string) : string :=
  String.substring n (String.length s - n) s.

(** The text of the positive number [m * 2 ^ e]. *)
Definition positive_to_string (m : positive) (e : Z) : string :=
  let '(s, n) := digits_and_exponent m e in
  let digits := JsString.of_Z s in
  let k := Z.of_nat (String.length digits) in
  if ((k <=? n) && (n <=? 21))%Z then
    digits ++ JsString.repeat "0" (Z.to_nat (n - k))
  else if ((0 <? n) && (n <=? 21))%Z then
    JsString.take (Z.to_nat n) digits ++ "." ++ drop (Z.to_nat n) digits
  else if ((-6 <? n) && (n <=? 0))%Z then
    "0." ++ JsString.repeat "0" (Z.to_nat (- n)) ++ digits
  else
    let exponent :=
      (if (n - 1 <? 0)%Z then "-" else "+") ++ JsString.of_Z (Z.abs (n - 1)) in
    if (k =? 1)%Z then digits ++ "e" ++ exponent
    else JsString.take 1 digits ++ "." ++ drop 1 digits ++ "e" ++ exponent.

Definition toString (x : float) : string :=
  match Prim2SF x with
  | S754_nan => "NaN"
  | S754_zero _ => "0"
  | S754_infinity negative => if negative then "-Infinity" else "Infinity"
  | S754_finite negative m e =>
      (if negative then "-" else EmptyString) ++ positive_to_string m e
  end.

End Number.

(* ================================================================== *)
(** * An environment for examples *)
(* ================================================================== *)

Module Example.

Import Js Cli.
Local Open Scope string_scope.

(** A run with [data] piped in: no colors, a parser and a serializer that
    know the one document [null], version 1.0.0, no clipboard to read and
    a clipboard that accepts what is written. *)
Definition piped (data : string) : environment Node.runtime :=
  {| chalk := fun _ text => text;
     number_to_string := fun _ => "0";
     host_to_string := fun _ => "function () { [native code] }";
     host_highlight := fun _ _ => "function () { [native code] }";
     JSON_parse := fun text =>
       if String.eqb text "null" then Return VNull
       else Throw (SyntaxError "Unexpected end of JSON input");
     JSON_stringify := fun v =>
       match v with VNull => Some "null" | _ => None end;
     package_version := Return "1.0.0";
     stdin := Some data;
     clipboard_read := Throw (Error "Couldn't find the required `xsel` binary");
     clipboard_write := fun _ => Return tt |}.

(** The same with a clipboard that rejects what is written. *)
Definition read_only (data : string) : environment Node.runtime :=
  {| chalk := chalk Node.runtime (piped data);
     number_to_string := number_to_string Node.runtime (piped data);
     host_to_string := host_to_string Node.runtime (piped data);
     host_highlight := host_highlight Node.runtime (piped data);
     JSON_parse := JSON_parse Node.runtime (piped data);
     JSON_stringify := JSON_stringify Node.runtime (piped data);
     package_version := package_version Node.runtime (piped data);
     stdin := Some data;
     clipboard_read := clipboard_read Node.runtime (piped data);
     clipboard_write := fun _ => Throw (Error "Couldn't find the required `xsel` binary") |}.

(** [JSON.stringify] on an object of the runtime: the prototypes have no
    enumerable property of their own, and a function gives [undefined]. *)
Definition builtin_json (h : Node.builtin) : option string :=
  match h with
  | Node.ObjectPrototype => Some "{}"
  | Node.ArrayPrototype => Some "[]"
  | Node.Method _ _ | Node.Unspecified => None
  end.

(** A run with [data] piped in on a runtime with the built-ins of [Json]
    and [Number]: no colors, version 1.0.0, no clipboard to read and a
    clipboard that accepts what is written.  A text whose value is outside
    of the code units of this development is not given to such a run. *)
Definition builtin_parse (text : string)
  : completion (value (host Node.runtime)) :=
  match Json.parse (host Node.runtime) text with
  | Json.Accepted v => Return v
  | _ => Throw (SyntaxError "Unexpected end of JSON input")
  end.

Definition standard (data : string) : environment Node.runtime :=
  {| chalk := fun _ text => text;
     number_to_string := Number.toString;
     host_to_string := fun _ => "function () { [native code] }";
     host_highlight := fun _ _ => "function () { [native code] }";
     JSON_parse := builtin_parse;
     JSON_stringify :=
       @Json.stringify (host Node.runtime) Number.toString builtin_json;
     package_version := Return "1.0.0";
     stdin := Some data;
     clipboard_read := Throw (Error "Couldn't find the required `xsel` binary");
     clipboard_write := fun _ => Return tt |}.

End Example.

(* ================================================================== *)
(** * Properties of the string operations *)
(* ================================================================== *)

Module JsStringFacts.

Import JsString.

Lemma append_empty_r (s : string) : (s ++ EmptyString)%string = s.
Proof.
  induction s as [|c s IH]; simpl; [reflexivity | now rewrite IH].
Qed.

Lemma append_assoc (a b c : string) :
  ((a ++ b) ++ c)%string = (a ++ b ++ c)%string.
Proof.
  induction a as [|x a IH]; simpl; [reflexivity | now rewrite IH].
Qed.

Lemma length_append (a b : string) :
  String.length (a ++ b) = String.length a + String.length b.
Proof.
  induction a as [|x a IH]; simpl; [reflexivity | now rewrite IH].
Qed.

Section Split.

Variable is_sep : ascii -> bool.

Lemma split_not_nil (s : string) : split is_sep s <> [].
Proof.
  induction s as [|c s IH]; simpl; [discriminate|].
  destruct (is_sep c); [discriminate|].
  destruct (split is_sep s); simpl; discriminate.
Qed.

Lemma append_head_empty (segs : list string) :
  segs <> [] -> append_head EmptyString segs = segs.
Proof.
  destruct segs as [|seg segs]; [congruence | reflexivity].
Qed.

Lemma append_head_cons_head (p : string) (c : ascii) (segs : list string) :
  append_head p (cons_head c segs)
  = append_head (p ++ String c EmptyString) segs.
Proof.
  destruct segs as [|seg segs]; simpl; [reflexivity|].
  now rewrite append_assoc.
Qed.

(** Splitting at every separator or at every run of separators: the same
    first segment when the text does not continue a run, and the same
    non-empty segments in either case. *)
Lemma split_runs_from_split (s : string) :
  (exists seg segs1 segs2,
      split_runs_from is_sep false s = seg :: segs1
      /\ split is_sep s = seg :: segs2
      /\ filter nonempty segs1 = filter nonempty segs2)
  /\ filter nonempty (split_runs_from is_sep true s)
     = filter nonempty (split is_sep s).
Proof.
  induction s as [|c s [IHf IHt]]; simpl.
  - split; [| reflexivity].
    exists EmptyString, [], []. auto.
  - destruct (is_sep c) eqn:Hc.
    + split.
      * exists EmptyString, (split_runs_from is_sep true s), (split is_sep s).
        auto.
      * simpl. exact IHt.
    + destruct IHf as (seg & segs1 & segs2 & E1 & E2 & EF).
      rewrite E1, E2. simpl. split.
      * exists (String c seg), segs1, segs2. auto.
      * now rewrite EF.
Qed.

Lemma split_runs_filter (s : string) :
  filter nonempty (split_runs is_sep s) = filter nonempty (split is_sep s).
Proof.
  destruct (split_runs_from_split s) as [(seg & segs1 & segs2 & E1 & E2 & EF) _].
  unfold split_runs. rewrite E1, E2. simpl. now rewrite EF.
Qed.

(** No segment holds a separator. *)
Lemma split_segments_clean (s : string) :
  Forall (fun seg => forallb (fun c => negb (is_sep c)) seg = true)
         (split is_sep s).
Proof.
  induction s as [|c s IH]; simpl.
  - repeat constructor.
  - destruct (is_sep c) eqn:Hc.
    + constructor; [reflexivity | exact IH].
    + destruct (split is_sep s) as [|seg segs]; simpl.
      * repeat constructor. simpl. now rewrite Hc.
      * inversion IH as [|? ? Hseg Hsegs]; subst.
        constructor; [| exact Hsegs]. simpl. now rewrite Hc, Hseg.
Qed.

(** The segments, in order, are the text without its separators. *)
Lemma flatten_split (s : string) :
  flatten (split is_sep s) = remove is_sep s.
Proof.
  induction s as [|c s IH]; simpl; [reflexivity|].
  destruct (is_sep c); simpl; [exact IH|].
  rewrite <- IH. destruct (split is_sep s); reflexivity.
Qed.

Lemma flatten_filter_nonempty (segs : list string) :
  flatten (filter nonempty segs) = flatten segs.
Proof.
  induction segs as [|seg segs IH]; simpl; [reflexivity|].
  destruct seg; simpl; [exact IH | now rewrite IH].
Qed.

(** A text of separators only has no non-empty segment. *)
Lemma split_all_separators (s : string) :
  forallb is_sep s = true -> filter nonempty (split is_sep s) = [].
Proof.
  induction s as [|c s IH]; simpl; [reflexivity|].
  destruct (is_sep c); simpl; [exact IH | discriminate].
Qed.

End Split.

Lemma strip_prefix_sound (p s rest : string) :
  strip_prefix p s = Some rest -> s = (p ++ rest)%string.
Proof.
  revert s. induction p as [|a p IH]; intros s H; simpl in *.
  - now inversion H.
  - destruct s as [|b s]; [discriminate|].
    destruct (Ascii.eqb a b) eqn:E; [|discriminate].
    apply Ascii.eqb_eq in E. subst b. f_equal. now apply IH.
Qed.

Lemma strip_prefix_append (p rest : string) :
  strip_prefix p (p ++ rest) = Some rest.
Proof.
  induction p as [|a p IH]; simpl; [reflexivity|].
  now rewrite Ascii.eqb_refl.
Qed.

Lemma canonical_index_digits (key : string) (i : nat) :
  Js.canonical_index key = Some i -> all_digits key = true.
Proof.
  unfold Js.canonical_index.
  destruct key as [|c key]; [discriminate|].
  destruct (Ascii.eqb c "0") eqn:E.
  - apply Ascii.eqb_eq in E. subst c.
    destruct key; [reflexivity | discriminate].
  - assert (H : (if all_digits (String c key)
                 then Some (Z.to_nat (parseInt (String c key))) else None)
                = Some i -> all_digits (String c key) = true)
      by (destruct (all_digits (String c key)); [reflexivity | discriminate]).
    intros Hi. apply H.
    destruct c as [[] [] [] [] [] [] [] []]; try exact Hi; discriminate.
Qed.

End JsStringFacts.

(* ================================================================== *)
(** * Properties of [extractPath] *)
(* ================================================================== *)

Module ExtractFacts.

Import Js Extract.
Local Open Scope js_scope.

(** C7.  The tokens of a path are the non-empty segments between single
    delimiters [.], [[], []]; these are also the non-empty segments between
    runs of one or more delimiters.  Every token is non-empty and free of
    delimiters, the tokens in order make up the path without its
    delimiters, and ["data.items[0].price"] has the tokens ["data"],
    ["items"], ["0"], ["price"]. *)
Theorem path_parts_tokens :
  (forall path : string,
      path_parts path
      = filter JsString.nonempty (JsString.split_runs is_delim path))
  /\ (forall path : string,
         Forall (fun part =>
                   JsString.nonempty part = true
                   /\ JsString.forallb (fun c => negb (is_delim c)) part = true)
                (path_parts path))
  /\ (forall path : string,
         JsString.flatten (path_parts path) = JsString.remove is_delim path)
  /\ path_parts "data.items[0].price" = ["data"; "items"; "0"; "price"].
Proof.
  split; [| split; [| split]].
  - intros path. unfold path_parts.
    symmetry. apply JsStringFacts.split_runs_filter.
  - intros path. unfold path_parts.
    apply Forall_forall. intros part Hin.
    apply filter_In in Hin. destruct Hin as [Hin Hne].
    split; [exact Hne|].
    pose proof (JsStringFacts.split_segments_clean is_delim path) as Hclean.
    rewrite Forall_forall in Hclean. now apply Hclean.
  - intros path. unfold path_parts.
    rewrite JsStringFacts.flatten_filter_nonempty.
    apply JsStringFacts.flatten_split.
  - reflexivity.
Qed.

Section Walk.

Variable R : Runtime.
#[warning="-notation-for-abbreviation"] Local Notation val := (value (host R)).

Lemma walk_absent_or_scalar (cur : val) (part : string) (rest : list string) :
  absent_or_scalar R cur = true ->
  walk R cur (part :: rest) = Return VUndefined.
Proof.
  destruct cur; simpl; intros H; try reflexivity; discriminate.
Qed.

Lemma walk_undefined (parts : list string) :
  walk R VUndefined parts = Return VUndefined.
Proof.
  destruct parts; reflexivity.
Qed.

(** The loop over [parts1 ++ parts2] is the loop over [parts1] continued
    by the loop over [parts2]: an early [return undefined] leaves
    [undefined], on which the second loop returns [undefined] too. *)
Lemma walk_app (parts1 parts2 : list string) (cur : val) :
  walk R cur (parts1 ++ parts2)
  = (reached <- walk R cur parts1 ;; walk R reached parts2).
Proof.
  revert cur. induction parts1 as [|part parts1 IH]; intros cur.
  - reflexivity.
  - cbn [app walk].
    destruct (loosely_null R cur).
    + simpl. now rewrite walk_undefined.
    + destruct (isArray R cur && JsString.all_digits part).
      * destruct (get_number R cur (JsString.parseInt part)); simpl;
          [apply IH | reflexivity].
      * destruct (and_then (typeof_object R cur) (has_property R part cur))
          as [[|]|err]; simpl.
        -- destruct (get R cur part); simpl; [apply IH | reflexivity].
        -- now rewrite walk_undefined.
        -- reflexivity.
Qed.

End Walk.

(** C9.  When the walk over the first tokens has reached a value that is
    absent ([undefined] or [null]) or a scalar (boolean, number, string),
    and at least one token remains, extraction yields NotFound whatever
    the remaining tokens are; [extract({"a":1}, "a.b.c")] is NotFound. *)
Theorem extract_short_circuits (R : Runtime) :
  (forall (obj cur : value (host R)) (done : list string)
          (part : string) (rest : list string),
      walk R obj done = Return cur ->
      absent_or_scalar R cur = true ->
      walk R obj (done ++ part :: rest) = Return VUndefined)
  /\ extractPath R (VObj [("a", VNum 1%float)]) "a.b.c" = Return VUndefined.
Proof.
  split.
  - intros obj cur done part rest Hcur Hscalar.
    rewrite walk_app, Hcur. simpl bind.
    now apply walk_absent_or_scalar.
  - reflexivity.
Qed.

Lemma extract_short_circuits_witness :
  walk Node.runtime (VObj [("a", VNull)]) ["a"] = Return VNull
  /\ absent_or_scalar Node.runtime VNull = true
  /\ walk Node.runtime (VObj [("a", VNull)]) (["a"] ++ "b" :: ["c"])
     = Return VUndefined.
Proof.
  split; [reflexivity | split; [reflexivity |]].
  apply (proj1 (extract_short_circuits Node.runtime)
               (VObj [("a", VNull)]) VNull ["a"] "b" ["c"]);
    reflexivity.
Defined.

(** C10.  For a path without any character other than the delimiters [.],
    [[], []] (the empty path among them), extraction returns the value it
    was given. *)
Theorem extract_delimiters_only (R : Runtime) (v : value (host R))
        (path : string) :
  JsString.forallb is_delim path = true ->
  extractPath R v path = Return v.
Proof.
  intros H. unfold extractPath, path_parts.
  now rewrite JsStringFacts.split_all_separators.
Qed.

Lemma extract_delimiters_only_witness :
  JsString.forallb is_delim "..[]" = true
  /\ extractPath Node.runtime (VArr [VNum 1%float; VNull]) "..[]"
     = Return (VArr [VNum 1%float; VNull]).
Proof.
  split; [reflexivity |].
  apply (extract_delimiters_only Node.runtime (VArr [VNum 1%float; VNull])).
  reflexivity.
Defined.

Section Objects.

Variable R : Runtime.
#[warning="-notation-for-abbreviation"] Local Notation val := (value (host R)).

Lemma get_returns (cur : val) (key : string) :
  host_reads_return R ->
  loosely_null R cur = false ->
  isArray R cur = true \/ typeof_object R cur = true ->
  exists x, get R cur key = Return x.
Proof.
  intros Hhost Hnull Hobj.
  destruct cur as [| | b | n | s | elems | fields | h]; simpl in *;
    try discriminate; try (destruct Hobj; discriminate).
  - destruct (array_own R elems key); eauto.
  - destruct (lookup key fields); eauto.
  - now apply Hhost.
Qed.

Lemma has_property_returns (cur : val) (part : string) :
  loosely_null R cur = false ->
  typeof_object R cur = true ->
  exists found, has_property R part cur = Return found.
Proof.
  intros Hnull Hobj.
  destruct cur; simpl in *; try discriminate; eauto.
Qed.

Lemma lookup_In {A : Type} (key : string) (fields : list (string * A)) (x : A) :
  lookup key fields = Some x -> In (key, x) fields.
Proof.
  induction fields as [|[k v] fields IH]; simpl; [discriminate|].
  destruct (String.eqb k key) eqn:E.
  - apply String.eqb_eq in E. intros H. inversion H. subst. now left.
  - intros H. right. now apply IH.
Qed.

(** A read that succeeds obtains [undefined], for a missing property, or
    one of the values that [reads] lists. *)
Lemma get_reads (cur x : val) (key : string) :
  absent_or_scalar R cur = false ->
  get R cur key = Return x ->
  x = VUndefined \/ reads R cur x.
Proof.
  intros Hobj Hget.
  destruct cur as [| | b | n | s | elems | fields | h]; simpl in *;
    try discriminate.
  - unfold array_own in Hget.
    destruct (String.eqb key "length").
    + inversion Hget. subst. right. apply read_length.
    + destruct (canonical_index key) as [i|].
      * destruct (nth_error elems i) as [y|] eqn:Hnth.
        -- inversion Hget. subst. right. apply read_elem.
           eapply nth_error_In; eauto.
        -- destruct (array_inherits R key) as [y|] eqn:Hin;
             inversion Hget; subst; [right | now left].
           eapply read_array_inherited; eauto.
      * destruct (array_inherits R key) as [y|] eqn:Hin;
          inversion Hget; subst; [right | now left].
        eapply read_array_inherited; eauto.
  - destruct (lookup key fields) as [y|] eqn:Hl.
    + inversion Hget. subst. right.
      eapply read_field. eapply lookup_In; eauto.
    + destruct (object_inherits R key) as [y|] eqn:Hin;
        inversion Hget; subst; [right | now left].
      eapply read_object_inherited; eauto.
  - right. eapply read_host; eauto.
Qed.

Lemma object_not_scalar (cur : val) :
  loosely_null R cur = false ->
  isArray R cur = true \/ typeof_object R cur = true ->
  absent_or_scalar R cur = false.
Proof.
  intros Hnull Hobj.
  destruct cur; simpl in *; try reflexivity; try discriminate;
    destruct Hobj; discriminate.
Qed.

(** One iteration that reads [x] from [cur] and goes on. *)
Lemma walk_continues (cur x : val) (key : string) (rest : list string) :
  absent_or_scalar R cur = false ->
  get R cur key = Return x ->
  (exists r, walk R x rest = Return r /\ (r = VUndefined \/ reaches R x r)) ->
  exists r, walk R x rest = Return r /\ (r = VUndefined \/ reaches R cur r).
Proof.
  intros Hobj Hget (r & Hr & Hreach). exists r. split; [exact Hr|].
  destruct Hreach as [Hu | Hreach]; [now left|].
  destruct (get_reads cur x key Hobj Hget) as [-> | Hread].
  - rewrite walk_undefined in Hr. inversion Hr. now left.
  - right. econstructor; eauto.
Qed.

Lemma walk_returns (parts : list string) :
  host_reads_return R ->
  forall cur : val,
  exists r, walk R cur parts = Return r /\ (r = VUndefined \/ reaches R cur r).
Proof.
  intros Hhost. induction parts as [|part rest IH]; intros cur.
  - exists cur. split; [reflexivity | right; constructor].
  - cbn [walk].
    destruct (loosely_null R cur) eqn:Hnull; [eauto|].
    destruct (isArray R cur && JsString.all_digits part) eqn:Hidx.
    + apply andb_true_iff in Hidx. destruct Hidx as [Harr _].
      destruct (get_returns cur (JsString.of_Z (JsString.parseInt part))
                            Hhost Hnull (or_introl Harr)) as [x Hx].
      unfold get_number. rewrite Hx. simpl bind.
      eapply walk_continues; eauto.
      apply object_not_scalar; auto.
    + destruct (typeof_object R cur) eqn:Hobj; simpl and_then; [| simpl; eauto].
      destruct (has_property_returns cur part Hnull Hobj) as [found Hfound].
      rewrite Hfound. simpl bind.
      destruct found; [| eauto].
      destruct (get_returns cur part Hhost Hnull (or_intror Hobj)) as [x Hx].
      rewrite Hx. simpl bind.
      eapply walk_continues; eauto.
      apply object_not_scalar; auto.
Qed.

End Objects.

(** The sub-values of a document are among the values that reads reach. *)
Lemma subvalue_reaches (R : Runtime) (v w : value (host R)) :
  subvalue R v w -> reaches R v w.
Proof.
  induction 1 as [v | elems x w Hin _ IH | fields k x w Hin _ IH].
  - constructor.
  - eapply reach_read; [apply read_elem | exact IH]. exact Hin.
  - eapply reach_read; [eapply read_field | exact IH]. exact Hin.
Qed.

(** The scenarios of the specification. *)
Example extract_price (R : Runtime) :
  extractPath R
    (VObj [("data", VObj [("items", VArr [VObj [("price", VNum 9%float)]])])])
    "data.items[0].price"
  = Return (VNum 9%float).
Proof. reflexivity. Qed.

Example extract_missing_key :
  extractPath Node.runtime (VObj [("user", VObj [("name", VStr "Jo")])])
              "user.email"
  = Return VUndefined.
Proof. reflexivity. Qed.

Lemma node_reads_return : host_reads_return Node.runtime.
Proof.
  intros h key Hobj. destruct h; simpl in *.
  - eauto.
  - destruct (String.eqb key "length"); eauto.
  - destruct Hobj; discriminate.
  - destruct Hobj; discriminate.
Qed.

(** One iteration on a mapping: the token is looked up as a key with [in],
    among the own keys first. *)
Lemma walk_mapping (R : Runtime) (fields : list (string * value (host R)))
      (part : string) (rest : list string) :
  walk R (VObj fields) (part :: rest)
  = match lookup part fields with
    | Some x => walk R x rest
    | None =>
        match object_inherits R part with
        | Some x => walk R x rest
        | None => Return VUndefined
        end
    end.
Proof.
  cbn [walk]. simpl.
  destruct (lookup part fields) as [x|]; simpl; [reflexivity|].
  destruct (object_inherits R part) as [x|]; reflexivity.
Qed.

(** One iteration on a sequence with a token that is not an index. *)
Lemma walk_sequence_name (R : Runtime) (elems : list (value (host R)))
      (part : string) (rest : list string) :
  JsString.all_digits part = false ->
  walk R (VArr elems) (part :: rest)
  = if String.eqb part "length"
    then walk R (VNum (number_of_nat (List.length elems))) rest
    else match array_inherits R part with
         | Some x => walk R x rest
         | None => Return VUndefined
         end.
Proof.
  intros Hdigits. cbn [walk]. simpl. rewrite Hdigits. simpl.
  unfold array_own.
  destruct (String.eqb part "length"); simpl; [reflexivity|].
  destruct (canonical_index part) as [i|] eqn:Hidx.
  - apply JsStringFacts.canonical_index_digits in Hidx. congruence.
  - simpl. destruct (array_inherits R part); reflexivity.
Qed.

(** C1, as the program has it.  When the current value is a mapping and
    the next token consists only of digits, the token is looked up as a key
    of the mapping: the array-index reading of a digit token is confined to
    sequences.  The walk descends into the value of the key when the
    mapping has it, and yields NotFound when the mapping has no property of
    that name. *)
Theorem digit_token_on_mapping (R : Runtime)
        (fields : list (string * value (host R)))
        (part : string) (rest : list string) :
  JsString.all_digits part = true ->
  (forall x, lookup part fields = Some x ->
             walk R (VObj fields) (part :: rest) = walk R x rest)
  /\ (lookup part fields = None -> object_inherits R part = None ->
      walk R (VObj fields) (part :: rest) = Return VUndefined).
Proof.
  intros _. rewrite walk_mapping. split.
  - now intros x ->.
  - now intros -> ->.
Qed.

Lemma digit_token_on_mapping_witness :
  JsString.all_digits "0" = true
  /\ lookup "0" [("0", @VNum Node.builtin 5%float)] = Some (VNum 5%float)
  /\ walk Node.runtime (VObj [("0", VNum 5%float)]) ["0"]
     = Return (VNum 5%float).
Proof.
  split; [reflexivity | split; [reflexivity |]].
  apply (proj1 (digit_token_on_mapping Node.runtime [("0", VNum 5%float)]
                  "0" [] eq_refl) (VNum 5%float)).
  reflexivity.
Defined.

(** C1 as stated fails: the digit token ["0"] reaches the key ["0"] of
    [{"0": 5}]. *)
Lemma digit_key_is_reachable :
  JsString.all_digits "0" = true
  /\ extractPath Node.runtime (VObj [("0", VNum 5%float)]) "0"
     = Return (VNum 5%float)
  /\ extractPath Node.runtime (VObj [("0", VNum 5%float)]) "0"
     <> Return VUndefined.
Proof.
  split; [reflexivity | split; [reflexivity | discriminate]].
Qed.

(** C2, as the program has it.  When the current value is a sequence and
    the next token is not composed only of digits, the token is looked up
    as a property of the array: the token [length] continues the walk with
    the number of elements of the sequence, and any other token that names
    no property of the array yields NotFound. *)
Theorem name_token_on_sequence (R : Runtime) (elems : list (value (host R)))
        (part : string) (rest : list string) :
  JsString.all_digits part = false ->
  array_inherits R part = None ->
  walk R (VArr elems) (part :: rest)
  = if String.eqb part "length"
    then walk R (VNum (number_of_nat (List.length elems))) rest
    else Return VUndefined.
Proof.
  intros Hdigits Hown. rewrite walk_sequence_name by exact Hdigits.
  now rewrite Hown.
Qed.

Lemma name_token_on_sequence_witness :
  JsString.all_digits "length" = false
  /\ array_inherits Node.runtime "length" = None
  /\ walk Node.runtime (VArr [VNull; VNull; VNull]) ["length"]
     = Return (VNum 3%float).
Proof.
  split; [reflexivity | split; [reflexivity |]].
  apply (name_token_on_sequence Node.runtime [VNull; VNull; VNull] "length" []);
    reflexivity.
Defined.

(** C2 as stated fails: the property name ["length"] descends into the
    sequence [[1, 2, 3]] and yields [3]. *)
Lemma length_descends_into_sequence :
  JsString.all_digits "length" = false
  /\ extractPath Node.runtime
       (VArr [VNum 1%float; VNum 2%float; VNum 3%float]) "length"
     = Return (VNum 3%float)
  /\ extractPath Node.runtime
       (VArr [VNum 1%float; VNum 2%float; VNum 3%float]) "length"
     <> Return VUndefined.
Proof.
  split; [reflexivity | split; [reflexivity | discriminate]].
Qed.

(** C5, as the program has it.  In a runtime whose prototype objects can
    be read without an exception, extraction returns for every value and
    every path string and never throws; the result is NotFound or a value
    reached from the given one by property reads, which besides its
    sub-values are the [length] of a sequence and what sequences and
    mappings inherit. *)
Theorem extract_total (R : Runtime) :
  host_reads_return R ->
  forall (v : value (host R)) (path : string),
  exists r, extractPath R v path = Return r
            /\ (r = VUndefined \/ reaches R v r).
Proof.
  intros Hhost v path. unfold extractPath. now apply walk_returns.
Qed.

Lemma extract_total_witness :
  host_reads_return Node.runtime
  /\ exists r, extractPath Node.runtime (VObj [("a", VArr [VNull])]) "a[0]."
               = Return r
               /\ (r = VUndefined
                   \/ reaches Node.runtime (VObj [("a", VArr [VNull])]) r).
Proof.
  split; [exact node_reads_return |].
  apply (extract_total Node.runtime node_reads_return).
Defined.

(** C5 as stated fails: [extract([], "length")] is [0], which is neither
    NotFound nor a sub-value of [[]]. *)
Lemma length_is_no_subvalue :
  extractPath Node.runtime (VArr []) "length" = Return (VNum 0%float)
  /\ @VNum Node.builtin 0%float <> VUndefined
  /\ ~ subvalue Node.runtime (VArr []) (VNum 0%float).
Proof.
  split; [reflexivity | split; [discriminate |]].
  intros H. inversion H as [? E | ? ? ? Hin | ]; subst.
  destruct Hin.
Qed.

End ExtractFacts.

(* ================================================================== *)
(** * Properties of [safeParse] *)
(* ================================================================== *)

Module ParseFacts.

Import Js Parse.
Local Open Scope Z_scope.

(** ** The regular expression [/position (\d+)/] *)

Lemma position_here_sound (s digits : string) :
  position_here s = Some digits ->
  exists d post,
    s = ("position " ++ String d post)%string /\ JsString.is_digit d = true.
Proof.
  unfold position_here.
  destruct (JsString.strip_prefix "position " s) as [[|d rest]|] eqn:E;
    try discriminate.
  destruct (JsString.is_digit d) eqn:Hd; [| discriminate].
  intros _. apply JsStringFacts.strip_prefix_sound in E.
  exists d, rest. auto.
Qed.

Lemma position_here_complete (d : ascii) (post : string) :
  JsString.is_digit d = true ->
  position_here ("position " ++ String d post)
  = Some (String d (JsString.take_digits post)).
Proof.
  intros Hd. unfold position_here.
  rewrite JsStringFacts.strip_prefix_append. now rewrite Hd.
Qed.

Lemma match_position_sound (message digits : string) :
  match_position message = Some digits ->
  exists pre d post,
    message = (pre ++ "position " ++ String d post)%string
    /\ JsString.is_digit d = true.
Proof.
  induction message as [|c rest IH]; [discriminate|].
  cbn [match_position].
  destruct (position_here (String c rest)) as [ds|] eqn:E.
  - intros _. apply position_here_sound in E.
    destruct E as (d & post & Heq & Hd).
    exists EmptyString, d, post. auto.
  - intros H. destruct (IH H) as (pre & d & post & Heq & Hd).
    exists (String c pre), d, post. split; [| exact Hd].
    simpl. now rewrite Heq.
Qed.

Lemma match_position_here (s digits : string) :
  position_here s = Some digits -> match_position s = Some digits.
Proof.
  destruct s as [|c s]; [discriminate|].
  cbn [match_position]. now intros ->.
Qed.

Lemma match_position_complete (pre post : string) (d : ascii) :
  JsString.is_digit d = true ->
  match_position (pre ++ "position " ++ String d post) <> None.
Proof.
  intros Hd. induction pre as [|c pre IH].
  - change (match_position ("position " ++ String d post) <> None).
    rewrite (match_position_here _ _ (position_here_complete d post Hd)).
    discriminate.
  - cbn [append match_position].
    destruct (position_here _); [discriminate | exact IH].
Qed.

(** A message on which the expression does not match holds no
    ["position "] followed by a digit. *)
Lemma match_position_none (message : string) :
  match_position message = None ->
  forall (pre : string) (d : ascii) (post : string),
    message = (pre ++ "position " ++ String d post)%string ->
    JsString.is_digit d = false.
Proof.
  intros Hnone pre d post Heq.
  destruct (JsString.is_digit d) eqn:Hd; [| reflexivity].
  exfalso. apply (match_position_complete pre post d Hd). now rewrite <- Heq.
Qed.

(** ** The loop that finds line and column *)

(** Case analysis on the test [a >=? b] of the goal, with the outcome as an
    inequality in the context. *)
Ltac case_geb :=
  match goal with
  | |- context [?a >=? ?b] =>
      let E := fresh "E" in
      destruct (a >=? b) eqn:E;
      [ apply Z.geb_le in E
      | rewrite Z.geb_leb in E; apply Z.leb_gt in E ]
  end.

Lemma locate_from_column (lines : list string) (position i chars : Z) :
  chars <= position -> 1 <= snd (locate_from lines position i chars).
Proof.
  revert i chars. induction lines as [|l lines IH]; intros i chars H; simpl.
  - lia.
  - destruct (chars + Z.of_nat (String.length l) >=? position) eqn:E; simpl.
    + lia.
    + apply IH. lia.
Qed.

Lemma chars_before_next (pre : list string) (l : string) (rest : list string) :
  chars_before (pre ++ l :: rest) (S (List.length pre))
  = chars_before (pre ++ l :: rest) (List.length pre)
    + Z.of_nat (String.length l) + 1.
Proof.
  induction pre as [|a pre IH].
  - cbn [app List.length chars_before]. lia.
  - change (chars_before ((a :: pre) ++ l :: rest) (S (List.length (a :: pre))))
      with (Z.of_nat (String.length a) + 1
            + chars_before (pre ++ l :: rest) (S (List.length pre))).
    change (chars_before ((a :: pre) ++ l :: rest) (List.length (a :: pre)))
      with (Z.of_nat (String.length a) + 1
            + chars_before (pre ++ l :: rest) (List.length pre)).
    lia.
Qed.

Lemma first_reaching_found (lines : list string) (o : Z) (n m : nat) :
  first_reaching lines o n = None ->
  (running_total lines n >=? o) = true ->
  (n < m)%nat ->
  first_reaching lines o m = Some n.
Proof.
  intros Hnone Hreach. induction m as [|m IH]; intros Hlt; [lia|].
  simpl. destruct (Nat.eq_dec m n) as [-> | Hne].
  - now rewrite Hnone, Hreach.
  - rewrite IH by lia. reflexivity.
Qed.

Lemma locate_from_spec (lines pre : list string) (o : Z) :
  first_reaching (pre ++ lines) o (List.length pre) = None ->
  locate_from lines o (Z.of_nat (List.length pre))
              (chars_before (pre ++ lines) (List.length pre))
  = locate_spec (pre ++ lines) o.
Proof.
  revert pre. induction lines as [|l lines IH]; intros pre Hnone.
  - unfold locate_spec. rewrite app_nil_r in *. now rewrite Hnone.
  - cbn [locate_from].
    assert (Htotal : running_total (pre ++ l :: lines) (List.length pre)
                     = chars_before (pre ++ l :: lines) (List.length pre)
                       + Z.of_nat (String.length l))
      by (unfold running_total; now rewrite nth_middle).
    rewrite <- Htotal.
    destruct (running_total (pre ++ l :: lines) (List.length pre) >=? o) eqn:E.
    + unfold locate_spec.
      rewrite (first_reaching_found _ _ (List.length pre)); auto.
      rewrite length_app. simpl. lia.
    + assert (Hlist : pre ++ l :: lines = (pre ++ [l]) ++ lines)
        by now rewrite <- app_assoc.
      assert (Hlen : List.length (pre ++ [l]) = S (List.length pre))
        by (rewrite length_app; simpl; lia).
      specialize (IH (pre ++ [l])).
      rewrite <- Hlist, Hlen in IH.
      rewrite chars_before_next in IH.
      rewrite Htotal.
      replace (Z.of_nat (List.length pre) + 1)
        with (Z.of_nat (S (List.length pre))) by lia.
      apply IH. simpl. now rewrite Hnone, E.
Qed.

(** Counting by hand along the text agrees with the loop over its lines.
    [p] is the part of the current line that has been read already. *)
Lemma locate_from_by_hand (t p : string) (i chars : Z) (o : nat) :
  (o <= String.length t)%nat ->
  locate_from (JsString.append_head p (JsString.split is_newline t))
              (chars + Z.of_nat (String.length p) + Z.of_nat o) i chars
  = count_from (JsString.take o t) (i + 1) (Z.of_nat (String.length p) + 1).
Proof.
  revert p i chars o.
  induction t as [|c t IH]; intros p i chars o Ho.
  - assert (o = 0%nat) as -> by (simpl in Ho; lia).
    cbn [JsString.split JsString.append_head JsString.take count_from
         locate_from].
    rewrite JsStringFacts.append_empty_r.
    case_geb; [f_equal; lia | lia].
  - destruct o as [|o].
    + cbn [JsString.take count_from].
      destruct (JsString.split is_newline (String c t)) as [|seg segs] eqn:Es;
        [now apply JsStringFacts.split_not_nil in Es|].
      cbn [JsString.append_head locate_from].
      rewrite JsStringFacts.length_append.
      case_geb; [f_equal; lia | lia].
    + assert (Ho' : (o <= String.length t)%nat) by (simpl in Ho; lia).
      cbn [JsString.split JsString.take count_from].
      destruct (is_newline c) eqn:Hc.
      * cbn [JsString.append_head locate_from].
        rewrite JsStringFacts.append_empty_r.
        case_geb; [lia|].
        specialize (IH EmptyString (i + 1)
                       (chars + Z.of_nat (String.length p) + 1) o Ho').
        rewrite JsStringFacts.append_head_empty in IH
          by apply JsStringFacts.split_not_nil.
        cbn [String.length] in IH.
        replace (chars + Z.of_nat (String.length p) + Z.of_nat (S o))
          with (chars + Z.of_nat (String.length p) + 1 + Z.of_nat 0
                + Z.of_nat o) by lia.
        rewrite IH. reflexivity.
      * rewrite JsStringFacts.append_head_cons_head.
        specialize (IH (p ++ String c EmptyString)%string i chars o Ho').
        rewrite JsStringFacts.length_append in IH. cbn [String.length] in IH.
        replace (chars + Z.of_nat (String.length p) + Z.of_nat (S o))
          with (chars + Z.of_nat (String.length p + 1) + Z.of_nat o) by lia.
        rewrite IH. f_equal. lia.
Qed.

(** An offset beyond the end of the text is reached on no line. *)
Lemma locate_from_beyond (t p : string) (i chars : Z) (o : nat) :
  (String.length t < o)%nat ->
  locate_from (JsString.append_head p (JsString.split is_newline t))
              (chars + Z.of_nat (String.length p) + Z.of_nat o) i chars
  = (1, 1).
Proof.
  revert p i chars o.
  induction t as [|c t IH]; intros p i chars o Ho.
  - cbn [JsString.split JsString.append_head locate_from].
    rewrite JsStringFacts.append_empty_r.
    case_geb; [lia | reflexivity].
  - destruct o as [|o]; [lia|].
    assert (Ho' : (String.length t < o)%nat) by (simpl in Ho; lia).
    cbn [JsString.split].
    destruct (is_newline c) eqn:Hc.
    + cbn [JsString.append_head locate_from].
      rewrite JsStringFacts.append_empty_r.
      case_geb; [lia|].
      specialize (IH EmptyString (i + 1)
                     (chars + Z.of_nat (String.length p) + 1) o Ho').
      rewrite JsStringFacts.append_head_empty in IH
        by apply JsStringFacts.split_not_nil.
      cbn [String.length] in IH.
      replace (chars + Z.of_nat (String.length p) + Z.of_nat (S o))
        with (chars + Z.of_nat (String.length p) + 1 + Z.of_nat 0
              + Z.of_nat o) by lia.
      exact IH.
    + rewrite JsStringFacts.append_head_cons_head.
      specialize (IH (p ++ String c EmptyString)%string i chars o Ho').
      rewrite JsStringFacts.length_append in IH. cbn [String.length] in IH.
      replace (chars + Z.of_nat (String.length p) + Z.of_nat (S o))
        with (chars + Z.of_nat (String.length p + 1) + Z.of_nat o) by lia.
      exact IH.
Qed.

(** For a text and a reported offset [o], the loop of [safeParse]
    over the lines of the text yields: as line the 1-based index of the
    first line at which the characters before the line plus its length
    meet or exceed [o], as column [o] minus the characters before that
    line plus 1, and line 1, column 1 when no line does.  For an offset
    within the text (up to its length) this is the line and column found
    by counting newlines by hand over the first [o] characters; for an
    offset beyond the text no line is found and the line is 1. *)
Lemma locate_line_column (text : string) (o : nat) :
  locate (JsString.split is_newline text) (Z.of_nat o)
  = locate_spec (JsString.split is_newline text) (Z.of_nat o)
  /\ locate (JsString.split is_newline text) (Z.of_nat o)
     = if (o <=? String.length text)%nat
       then line_col_by_hand text o
       else (1, 1).
Proof.
  split.
  - apply (locate_from_spec (JsString.split is_newline text) [] (Z.of_nat o)).
    reflexivity.
  - unfold locate, line_col_by_hand.
    rewrite <- (JsStringFacts.append_head_empty
                  (JsString.split is_newline text))
      by apply JsStringFacts.split_not_nil.
    destruct (o <=? String.length text)%nat eqn:E.
    + apply Nat.leb_le in E.
      apply (locate_from_by_hand text EmptyString 0 0 o E).
    + apply Nat.leb_gt in E.
      apply (locate_from_beyond text EmptyString 0 0 o E).
Qed.

(** Offset 6 of a text of three lines, ["{"], ["ab,"] and ["}"], is the
    first character of line 3. *)
Example locate_third_line :
  locate (JsString.split is_newline ("{" ++ newline ++ "ab," ++ newline ++ "}")) 6
  = (3, 1).
Proof. reflexivity. Qed.

Section SafeParseFacts.

Variable host : Type.
Variable JSON_parse : string -> completion (value host).

(** The [catch] block leaves through one of its [throw] statements, and
    with an offset it throws the diagnostic for the located line and
    column: [repeat] is never given a negative count. *)
Lemma rethrow_throws (str : string) (err : exn) :
  rethrow host str err
  = match match_position (message err) with
    | Some digits =>
        let lines := JsString.split is_newline str in
        let '(line, col) := locate lines (JsString.parseInt digits) in
        Throw (Error (diagnostic (message err) line
                        (nth (Z.to_nat (line - 1)) lines EmptyString)
                        (JsString.repeat " " (Z.to_nat (col - 1)) ++ "^")))
    | None => Throw err
    end.
Proof.
  unfold rethrow.
  destruct (match_position (message err)) as [digits|]; [| reflexivity].
  cbv zeta.
  assert (Hpos : 0 <= JsString.parseInt digits).
  { assert (H : forall s acc, 0 <= acc -> 0 <= JsString.parse_digits acc s).
    { induction s as [|c s IH]; intros acc Hacc;
        cbn [JsString.parse_digits]; [exact Hacc|].
      destruct (JsString.is_digit c) eqn:Hd; [| exact Hacc].
      apply IH. unfold JsString.is_digit in Hd. cbv zeta in Hd.
      apply andb_true_iff in Hd. destruct Hd as [Hlo _].
      apply Nat.leb_le in Hlo. unfold JsString.digit_value. lia. }
    apply H. lia. }
  pose proof (locate_from_column (JsString.split is_newline str)
                (JsString.parseInt digits) 0 0 Hpos) as Hcol.
  fold (locate (JsString.split is_newline str) (JsString.parseInt digits))
    in Hcol.
  destruct (locate (JsString.split is_newline str) (JsString.parseInt digits))
    as [line col].
  simpl in Hcol. unfold repeat_spaces.
  destruct (col - 1 <? 0) eqn:E; [lia | reflexivity].
Qed.

(** The diagnostic for an offset within the text names the line and the
    column counted by hand. *)
Lemma safeParse_diagnostic (str : string) (err : exn) (digits : string)
      (line col : Z) :
  JSON_parse str = Throw err ->
  match_position (message err) = Some digits ->
  0 <= JsString.parseInt digits <= Z.of_nat (String.length str) ->
  line_col_by_hand str (Z.to_nat (JsString.parseInt digits)) = (line, col) ->
  safeParse host JSON_parse str
  = Throw (Error (diagnostic (message err) line
                    (nth (Z.to_nat (line - 1))
                         (JsString.split is_newline str) EmptyString)
                    (JsString.repeat " " (Z.to_nat (col - 1)) ++ "^"))).
Proof.
  intros Hparse Hmatch Hrange Hhand.
  unfold safeParse. rewrite Hparse, rethrow_throws, Hmatch. cbv zeta.
  assert (Hloc : locate (JsString.split is_newline str)
                        (JsString.parseInt digits)
                 = (line, col)).
  { rewrite <- Hhand. unfold locate, line_col_by_hand.
    rewrite <- (JsStringFacts.append_head_empty
                  (JsString.split is_newline str))
      by apply JsStringFacts.split_not_nil.
    rewrite <- (locate_from_by_hand str EmptyString 0 0) by lia.
    f_equal. cbn [String.length]. lia. }
  now rewrite Hloc.
Qed.

(** [safeParse] returns what [JSON.parse] returns, and throws when
    [JSON.parse] throws. *)
Lemma safeParse_follows (str : string) :
  match JSON_parse str with
  | Return v => safeParse host JSON_parse str = Return v
  | Throw _ => exists err, safeParse host JSON_parse str = Throw err
  end.
Proof.
  unfold safeParse. destruct (JSON_parse str) as [v | raw]; [reflexivity|].
  rewrite rethrow_throws.
  destruct (match_position (message raw)); [| eauto].
  cbv zeta. destruct (locate _ _). eauto.
Qed.

(** C8.  When [JSON.parse] throws and the message of its error holds no
    ["position "] followed by a digit, [safeParse] throws that very error:
    the message is unchanged, with no line, caret or hints added. *)
Theorem safeParse_rethrows_raw (str : string) (err : exn) :
  JSON_parse str = Throw err ->
  (forall (pre : string) (d : ascii) (post : string),
      message err = (pre ++ "position " ++ String d post)%string ->
      JsString.is_digit d = false) ->
  safeParse host JSON_parse str = Throw err.
Proof.
  intros Hparse Hnone. unfold safeParse. rewrite Hparse, rethrow_throws.
  destruct (match_position (message err)) as [digits|] eqn:E; [| reflexivity].
  apply match_position_sound in E.
  destruct E as (pre & d & post & Heq & Hd).
  rewrite (Hnone pre d post Heq) in Hd. discriminate.
Qed.

End SafeParseFacts.

Lemma safeParse_rethrows_raw_witness :
  let JSON_parse := fun _ : string =>
    @Throw (value Node.builtin) (SyntaxError "Unexpected end of JSON input") in
  JSON_parse "[1," = Throw (SyntaxError "Unexpected end of JSON input")
  /\ match_position "Unexpected end of JSON input" = None
  /\ safeParse Node.builtin JSON_parse "[1,"
     = Throw (SyntaxError "Unexpected end of JSON input").
Proof.
  split; [reflexivity | split; [reflexivity |]].
  apply (safeParse_rethrows_raw Node.builtin
           (fun _ => Throw (SyntaxError "Unexpected end of JSON input"))
           "[1," (SyntaxError "Unexpected end of JSON input")).
  - reflexivity.
  - apply match_position_none. reflexivity.
Defined.

End ParseFacts.

(* ================================================================== *)
(** * Further properties of [extractPath] *)
(* ================================================================== *)

Module PathFacts.

Import Js Extract Document.
Local Open Scope js_scope.

(** ** Tokens *)

Lemma split_app (is_sep : ascii -> bool) (p1 p2 : string) (d : ascii) :
  is_sep d = true ->
  JsString.split is_sep (p1 ++ String d p2)
  = JsString.split is_sep p1 ++ JsString.split is_sep p2.
Proof.
  intros Hd. induction p1 as [|c p1 IH]; simpl.
  - now rewrite Hd.
  - destruct (is_sep c); [now rewrite IH|].
    rewrite IH.
    destruct (JsString.split is_sep p1) as [|seg segs] eqn:E;
      [now apply JsStringFacts.split_not_nil in E | reflexivity].
Qed.

Lemma path_parts_app (p1 p2 : string) (d : ascii) :
  is_delim d = true ->
  path_parts (p1 ++ String d p2) = path_parts p1 ++ path_parts p2.
Proof.
  intros Hd. unfold path_parts.
  rewrite (split_app is_delim p1 p2 d Hd). apply filter_app.
Qed.

Lemma split_map_chars (f : ascii -> ascii) (path : string) :
  (forall c, is_delim (f c) = is_delim c) ->
  (forall c, is_delim c = false -> f c = c) ->
  JsString.split is_delim (map_chars f path) = JsString.split is_delim path.
Proof.
  intros Hdelim Hkeep. induction path as [|c path IH]; simpl; [reflexivity|].
  rewrite Hdelim, IH. destruct (is_delim c) eqn:Hc; [reflexivity|].
  now rewrite (Hkeep c Hc).
Qed.

Lemma split_clean (is_sep : ascii -> bool) (s : string) :
  JsString.forallb (fun c => negb (is_sep c)) s = true ->
  JsString.split is_sep s = [s].
Proof.
  induction s as [|c s IH]; simpl; [reflexivity|].
  intros H. apply andb_true_iff in H. destruct H as [Hc Hs].
  apply negb_true_iff in Hc. rewrite Hc, (IH Hs). reflexivity.
Qed.

Lemma path_parts_key (key : string) :
  JsString.nonempty key = true ->
  JsString.forallb (fun c => negb (is_delim c)) key = true ->
  path_parts key = [key].
Proof.
  intros Hne Hclean. unfold path_parts.
  rewrite (split_clean is_delim key Hclean). simpl. now rewrite Hne.
Qed.

(** X1.  Extraction along a path made of two paths joined by a delimiter
    is extraction along the first followed by extraction along the second
    from the value found. *)
Theorem extract_composes (R : Runtime) (v : value (host R))
        (p1 p2 : string) (d : ascii) :
  is_delim d = true ->
  extractPath R v (p1 ++ String d p2)
  = (found <- extractPath R v p1 ;; extractPath R found p2).
Proof.
  intros Hd. unfold extractPath.
  rewrite (path_parts_app p1 p2 d Hd). apply ExtractFacts.walk_app.
Qed.

Lemma extract_composes_witness :
  is_delim "." = true
  /\ extractPath Node.runtime
       (VObj [("a", VArr [VNull; VStr "x"])]) ("a" ++ String "." "[1]")
     = (found <- extractPath Node.runtime
                   (VObj [("a", VArr [VNull; VStr "x"])]) "a" ;;
        extractPath Node.runtime found "[1]").
Proof.
  split; [reflexivity |].
  apply (extract_composes Node.runtime (VObj [("a", VArr [VNull; VStr "x"])])
           "a" "[1]" "."). reflexivity.
Defined.

(** X2.  Which delimiter stands where does not matter: replacing
    delimiters of a path by other delimiters ([items[0]] and [items.0.],
    balanced brackets or not) leaves the extraction unchanged. *)
Theorem extract_any_delimiter (R : Runtime) (v : value (host R))
        (f : ascii -> ascii) (path : string) :
  (forall c, is_delim (f c) = is_delim c) ->
  (forall c, is_delim c = false -> f c = c) ->
  extractPath R v (map_chars f path) = extractPath R v path.
Proof.
  intros Hdelim Hkeep. unfold extractPath, path_parts.
  now rewrite split_map_chars.
Qed.

Lemma extract_any_delimiter_witness :
  (forall c, is_delim (dots c) = is_delim c)
  /\ (forall c, is_delim c = false -> dots c = c)
  /\ map_chars dots "items[0]" = "items.0."
  /\ extractPath Node.runtime (VObj [("items", VArr [VNull])]) "items.0."
     = extractPath Node.runtime (VObj [("items", VArr [VNull])]) "items[0]".
Proof.
  assert (H1 : forall c, is_delim (dots c) = is_delim c)
    by (intros c; unfold dots; destruct (is_delim c) eqn:E;
        [reflexivity | exact E]).
  assert (H2 : forall c, is_delim c = false -> dots c = c)
    by (intros c E; unfold dots; now rewrite E).
  split; [exact H1 | split; [exact H2 | split; [reflexivity |]]].
  apply (extract_any_delimiter Node.runtime (VObj [("items", VArr [VNull])])
           dots "items[0]" H1 H2).
Defined.

(** X3.  A key that is not empty and holds no delimiter selects itself:
    used as the path on a mapping, it yields the value of that key when
    the mapping has it, and NotFound when the mapping neither has nor
    inherits a property of that name. *)
Theorem extract_key (R : Runtime) (fields : list (string * value (host R)))
        (key : string) :
  JsString.nonempty key = true ->
  JsString.forallb (fun c => negb (is_delim c)) key = true ->
  (forall x, lookup key fields = Some x ->
             extractPath R (VObj fields) key = Return x)
  /\ (lookup key fields = None -> object_inherits R key = None ->
      extractPath R (VObj fields) key = Return VUndefined).
Proof.
  intros Hne Hclean. unfold extractPath.
  rewrite (path_parts_key key Hne Hclean), ExtractFacts.walk_mapping.
  split.
  - now intros x ->.
  - now intros -> ->.
Qed.

Lemma extract_key_witness :
  JsString.nonempty "user name" = true
  /\ JsString.forallb (fun c => negb (is_delim c)) "user name" = true
  /\ extractPath Node.runtime (VObj [("id", VNull); ("user name", VStr "Jo")])
                 "user name"
     = Return (VStr "Jo").
Proof.
  split; [reflexivity | split; [reflexivity |]].
  apply (proj1 (extract_key Node.runtime
                  [("id", VNull); ("user name", VStr "Jo")] "user name"
                  eq_refl eq_refl)).
  reflexivity.
Defined.

End PathFacts.

(* ================================================================== *)
(** * Indices and sub-values *)
(* ================================================================== *)

Module IndexFacts.

Import Js Extract Document.
Local Open Scope js_scope.
Local Open Scope Z_scope.

(** ** Decimal digits *)

Lemma parse_digits_nonneg (s : string) (acc : Z) :
  0 <= acc -> 0 <= JsString.parse_digits acc s.
Proof.
  revert acc. induction s as [|c s IH]; intros acc Hacc;
    cbn [JsString.parse_digits]; [exact Hacc|].
  destruct (JsString.is_digit c) eqn:Hd; [| exact Hacc].
  apply IH. unfold JsString.is_digit in Hd. cbv zeta in Hd.
  apply andb_true_iff in Hd. destruct Hd as [Hlo _].
  apply Nat.leb_le in Hlo. unfold JsString.digit_value. lia.
Qed.

Lemma parseInt_nonneg (s : string) : 0 <= JsString.parseInt s.
Proof.
  apply parse_digits_nonneg. lia.
Qed.

Lemma string_of_uint_digits (d : Decimal.uint) :
  JsString.forallb JsString.is_digit (NilEmpty.string_of_uint d) = true.
Proof.
  induction d; simpl; auto.
Qed.

Lemma parse_digits_of_uint_acc (d : Decimal.uint) (acc : positive) :
  JsString.parse_digits (Z.pos acc) (NilEmpty.string_of_uint d)
  = Z.pos (Pos.of_uint_acc d acc).
Proof.
  revert acc. induction d; intros acc;
    cbn [NilEmpty.string_of_uint JsString.parse_digits Pos.of_uint_acc];
    [reflexivity | ..];
    match goal with
    | |- context [JsString.is_digit ?c] =>
        change (JsString.is_digit c) with true; cbv iota;
        rewrite <- IHd; f_equal; unfold JsString.digit_value;
        let v := eval compute in (Z.of_nat (nat_of_ascii c)) in
        change (Z.of_nat (nat_of_ascii c)) with v; lia
    end.
Qed.

Lemma parse_digits_of_uint (d : Decimal.uint) :
  JsString.parse_digits 0 (NilEmpty.string_of_uint d) = Z.of_N (Pos.of_uint d).
Proof.
  induction d;
    cbn [NilEmpty.string_of_uint JsString.parse_digits Pos.of_uint];
    [reflexivity | exact IHd | ..];
    match goal with
    | |- context [JsString.is_digit ?c] =>
        change (JsString.is_digit c) with true; cbv iota;
        cbn [Z.of_N]; rewrite <- parse_digits_of_uint_acc; reflexivity
    end.
Qed.

(** [N.to_uint] writes no superfluous zero. *)
Lemma to_uint_normal (n : N) :
  N.to_uint n = Decimal.D0 Decimal.Nil
  \/ match N.to_uint n with
     | Decimal.Nil | Decimal.D0 _ => False
     | _ => True
     end.
Proof.
  pose proof (DecimalN.Unsigned.to_of (N.to_uint n)) as H.
  rewrite DecimalN.Unsigned.of_to in H.
  destruct (N.to_uint n) as [|l| | | | | | | | |] eqn:E; try (right; exact I).
  - exfalso. revert H. apply not_eq_sym, DecimalFacts.unorm_nonnil.
  - left. destruct l as [|l'| | | | | | | | |]; [reflexivity | ..];
      exfalso; rewrite DecimalFacts.unorm_D0 in H;
      match type of H with
      | Decimal.D0 ?l = ?u =>
          assert (Hn : (Decimal.nb_digits u <= Decimal.nb_digits l)%nat)
            by (apply DecimalFacts.nb_digits_unorm; discriminate);
          rewrite <- H in Hn; simpl in Hn; lia
      end.
Qed.

(** The decimal form of a non-negative integer is made of digits, reads
    back as the integer, and is the canonical form of an array index. *)
Lemma of_Z_decimal (n : Z) :
  0 <= n ->
  JsString.all_digits (JsString.of_Z n) = true
  /\ JsString.parseInt (JsString.of_Z n) = n
  /\ canonical_index (JsString.of_Z n) = Some (Z.to_nat n).
Proof.
  intros Hn. unfold JsString.of_Z.
  assert (Hback : Z.of_N (N.of_uint (N.to_uint (Z.to_N n))) = n)
    by (rewrite DecimalN.Unsigned.of_to; lia).
  unfold N.of_uint in Hback. rewrite <- parse_digits_of_uint in Hback.
  pose proof (string_of_uint_digits (N.to_uint (Z.to_N n))) as Hdig.
  destruct (to_uint_normal (Z.to_N n)) as [Hz | Hnz].
  - rewrite Hz in *. simpl in Hback. subst n. repeat split.
  - destruct (N.to_uint (Z.to_N n)) eqn:E; try contradiction;
      cbn [NilZero.string_of_uint];
      cbn [NilEmpty.string_of_uint] in Hback, Hdig |- *;
      (assert (Hall : JsString.all_digits (String _ (NilEmpty.string_of_uint u))
                     = true) by exact Hdig || idtac);
      unfold JsString.all_digits; cbn [JsString.nonempty andb];
      (split; [exact Hdig | split; [exact Hback |]]);
      unfold canonical_index; cbv iota beta;
      unfold JsString.all_digits; cbn [JsString.nonempty andb];
      rewrite Hdig; unfold JsString.parseInt; rewrite Hback; reflexivity.
Qed.

(** ** Indexing a sequence *)

Section Index.

Variable R : Runtime.
#[warning="-notation-for-abbreviation"] Local Notation val := (value (host R)).

Lemma array_own_index (elems : list val) (n : Z) :
  0 <= n ->
  array_own R elems (JsString.of_Z n) = nth_error elems (Z.to_nat n).
Proof.
  intros Hn. destruct (of_Z_decimal n Hn) as (Hdig & _ & Hcanon).
  unfold array_own.
  destruct (String.eqb_spec (JsString.of_Z n) "length") as [E | _].
  - rewrite E in Hdig. discriminate.
  - now rewrite Hcanon.
Qed.

(** One iteration on a sequence with a token made of digits. *)
Lemma walk_index (elems : list val) (part : string) (rest : list string) :
  JsString.all_digits part = true ->
  walk R (VArr elems) (part :: rest)
  = match nth_error elems (Z.to_nat (JsString.parseInt part)) with
    | Some x => walk R x rest
    | None =>
        walk R (or_undefined
                  (array_inherits R (JsString.of_Z (JsString.parseInt part))))
             rest
    end.
Proof.
  intros Hdig. cbn [walk]. simpl loosely_null. simpl isArray.
  rewrite Hdig. cbv iota. simpl andb. cbv iota.
  unfold get_number, get.
  rewrite (array_own_index elems _ (parseInt_nonneg part)).
  destruct (nth_error elems (Z.to_nat (JsString.parseInt part)));
    reflexivity.
Qed.

Lemma walk_json (parts : list string) :
  Forall (plain_token R) parts ->
  forall cur : val,
    is_json cur = true ->
    exists r, walk R cur parts = Return r
              /\ (r = VUndefined \/ subvalue R cur r).
Proof.
  induction 1 as [|part rest Hplain _ IH]; intros cur Hjson.
  - exists cur. split; [reflexivity | right; constructor].
  - destruct Hplain as (Hlen & Hobj & Harr & Hidx).
    destruct cur as [| | b | n | s | elems | fields | h];
      try discriminate;
      try (exists VUndefined; split; [reflexivity | now left]).
    + cbn [is_json] in Hjson. rewrite forallb_forall in Hjson.
      destruct (JsString.all_digits part) eqn:Hdig.
      * rewrite (walk_index elems part rest Hdig).
        destruct (nth_error elems (Z.to_nat (JsString.parseInt part)))
          as [x|] eqn:Hnth.
        -- apply nth_error_In in Hnth.
           destruct (IH x (Hjson x Hnth)) as (r & Hr & [Hu | Hsub]).
           ++ exists r. auto.
           ++ exists r. split; [exact Hr | right].
              eapply sub_elem; eauto.
        -- rewrite Hidx. simpl or_undefined.
           rewrite ExtractFacts.walk_undefined. eauto.
      * rewrite (ExtractFacts.walk_sequence_name R elems part rest Hdig).
        destruct (String.eqb_spec part "length") as [E | _];
          [contradiction|].
        rewrite Harr. eauto.
    + cbn [is_json] in Hjson. rewrite forallb_forall in Hjson.
      rewrite ExtractFacts.walk_mapping.
      destruct (lookup part fields) as [x|] eqn:Hl.
      * apply ExtractFacts.lookup_In in Hl.
        destruct (IH x (Hjson (part, x) Hl)) as (r & Hr & [Hu | Hsub]).
        -- exists r. auto.
        -- exists r. split; [exact Hr | right].
           eapply sub_field; eauto.
      * rewrite Hobj. eauto.
Qed.

End Index.

(** X4.  On a sequence, a token made of digits denotes the element at the
    index that the digits spell in decimal, leading zeros included: the
    walk continues in that element when the index is within the sequence,
    and yields NotFound when it is at or past its length (sequences
    inheriting nothing under that index). *)
Theorem extract_index (R : Runtime) (elems : list (value (host R)))
        (part : string) (rest : list string) :
  JsString.all_digits part = true ->
  (forall x, nth_error elems (Z.to_nat (JsString.parseInt part)) = Some x ->
             walk R (VArr elems) (part :: rest) = walk R x rest)
  /\ ((List.length elems <= Z.to_nat (JsString.parseInt part))%nat ->
      array_inherits R (JsString.of_Z (JsString.parseInt part)) = None ->
      walk R (VArr elems) (part :: rest) = Return VUndefined).
Proof.
  intros Hdig. rewrite (walk_index R elems part rest Hdig). split.
  - now intros x ->.
  - intros Hlen Hinh. apply nth_error_None in Hlen. rewrite Hlen, Hinh.
    apply ExtractFacts.walk_undefined.
Qed.

Lemma extract_index_witness :
  JsString.all_digits "01" = true
  /\ nth_error [@VNull Node.builtin; VStr "b"] (Z.to_nat (JsString.parseInt "01"))
     = Some (VStr "b")
  /\ walk Node.runtime (VArr [VNull; VStr "b"]) ["01"] = Return (VStr "b").
Proof.
  split; [reflexivity | split; [reflexivity |]].
  apply (proj1 (extract_index Node.runtime [VNull; VStr "b"] "01" [] eq_refl)
               (VStr "b")).
  reflexivity.
Defined.

(** X5.  For a JSON document and a path whose tokens name nothing but
    elements and own keys (no token is [length] or the name of an
    inherited property), extraction returns NotFound or a sub-value of the
    document. *)
Theorem extract_subvalue (R : Runtime) (v : value (host R)) (path : string) :
  is_json v = true ->
  Forall (plain_token R) (path_parts path) ->
  exists r, extractPath R v path = Return r
            /\ (r = VUndefined \/ subvalue R v r).
Proof.
  intros Hjson Hplain. unfold extractPath. now apply walk_json.
Qed.

Lemma extract_subvalue_witness :
  is_json (@VObj Node.builtin [("a", VArr [VNull; VStr "b"])]) = true
  /\ Forall (plain_token Node.runtime) (path_parts "a[1]")
  /\ exists r, extractPath Node.runtime (VObj [("a", VArr [VNull; VStr "b"])])
                           "a[1]" = Return r
               /\ (r = VUndefined
                   \/ subvalue Node.runtime
                        (VObj [("a", VArr [VNull; VStr "b"])]) r).
Proof.
  assert (Hplain : Forall (plain_token Node.runtime) (path_parts "a[1]")).
  { repeat constructor; discriminate. }
  split; [reflexivity | split; [exact Hplain |]].
  apply (extract_subvalue Node.runtime (VObj [("a", VArr [VNull; VStr "b"])])
           "a[1]" eq_refl Hplain).
Defined.

End IndexFacts.

(* ================================================================== *)
(** * Further properties of the diagnostic *)
(* ================================================================== *)

Module DiagnosticFacts.

Import Js Parse Rows.
Import ParseFacts.
Local Open Scope Z_scope.

Lemma locate_from_bounds (lines : list string) (position i chars : Z) :
  chars <= position ->
  locate_from lines position i chars = (1, 1)
  \/ exists (k : nat) (l : string),
       nth_error lines k = Some l
       /\ fst (locate_from lines position i chars) = i + 1 + Z.of_nat k
       /\ 1 <= snd (locate_from lines position i chars)
          <= Z.of_nat (String.length l) + 1.
Proof.
  revert i chars. induction lines as [|l lines IH]; intros i chars Hle.
  - now left.
  - cbn [locate_from]. case_geb.
    + right. exists 0%nat, l. cbn [fst snd nth_error]. repeat split; lia.
    + destruct (IH (i + 1) (chars + Z.of_nat (String.length l) + 1))
        as [H1 | (k & l' & Hk & Hline & Hcol)]; [lia | now left |].
      right. exists (S k), l'. cbn [nth_error]. repeat split; try lia.
      exact Hk.
Qed.

(** X6.  Whatever offset is reported, the line of the diagnostic is a line
    of the text and the column lies within that line or just past its
    end: [lines[line - 1]] is always an element of [lines]. *)
Theorem locate_within_text (text : string) (position line col : Z) :
  0 <= position ->
  locate (JsString.split is_newline text) position = (line, col) ->
  1 <= line <= Z.of_nat (List.length (JsString.split is_newline text))
  /\ 1 <= col
     <= Z.of_nat (String.length
                    (nth (Z.to_nat (line - 1))
                         (JsString.split is_newline text) EmptyString)) + 1.
Proof.
  intros Hpos Hloc. unfold locate in Hloc.
  destruct (locate_from_bounds (JsString.split is_newline text) position 0 0
                               Hpos)
    as [H1 | (k & l & Hk & Hline & Hcol)].
  - rewrite H1 in Hloc. inversion Hloc; subst.
    destruct (JsString.split is_newline text) as [|l0 ls] eqn:E;
      [now apply JsStringFacts.split_not_nil in E|].
    cbn [List.length nth Z.to_nat Z.sub]. simpl. lia.
  - rewrite Hloc in Hline, Hcol. cbn [fst snd] in Hline, Hcol.
    assert (Hlt : (k < List.length (JsString.split is_newline text))%nat)
      by (apply nth_error_Some; congruence).
    replace (Z.to_nat (line - 1)) with k by lia.
    rewrite (nth_error_nth _ _ EmptyString Hk). lia.
Qed.

Lemma locate_within_text_witness :
  0 <= 5
  /\ locate (JsString.split is_newline ("{" ++ newline ++ "ab," ++ newline ++ "}")) 5
     = (2, 4)
  /\ 1 <= 2 <= 3 /\ 1 <= 4 <= 3 + 1.
Proof.
  split; [lia | split; [reflexivity |]].
  apply (locate_within_text ("{" ++ newline ++ "ab," ++ newline ++ "}") 5 2 4);
    [lia | reflexivity].
Defined.

Lemma get_append_here (p s : string) (c : ascii) :
  String.get (String.length p) (p ++ String c s) = Some c.
Proof.
  induction p as [|a p IH]; [reflexivity | exact IH].
Qed.

(** The loop stops on the line that holds the character at the offset,
    at the column of that character.  [p] is the part of the current line
    that has been read already. *)
Lemma locate_from_char (t p : string) (i chars : Z) (o : nat) (c : ascii) :
  String.get o t = Some c ->
  is_newline c = false ->
  exists (k : nat) (col : Z),
    locate_from (JsString.append_head p (JsString.split is_newline t))
                (chars + Z.of_nat (String.length p) + Z.of_nat o) i chars
    = (i + 1 + Z.of_nat k, col)
    /\ 1 <= col
    /\ String.get (Z.to_nat (col - 1))
                  (nth k (JsString.append_head p (JsString.split is_newline t))
                       EmptyString)
       = Some c.
Proof.
  revert p i chars o.
  induction t as [|c0 t IH]; intros p i chars o Hget Hc.
  - destruct o; discriminate.
  - destruct o as [|o].
    + cbn [String.get] in Hget. inversion Hget; subst c0.
      cbn [JsString.split]. rewrite Hc.
      destruct (JsString.split is_newline t) as [|seg segs] eqn:Es;
        [now apply JsStringFacts.split_not_nil in Es|].
      cbn [JsString.cons_head JsString.append_head locate_from nth].
      rewrite JsStringFacts.length_append. cbn [String.length].
      case_geb; [| lia].
      exists 0%nat, (Z.of_nat (String.length p) + 1).
      split; [f_equal; lia | split; [lia |]].
      replace (Z.to_nat (Z.of_nat (String.length p) + 1 - 1))
        with (String.length p) by lia.
      apply get_append_here.
    + cbn [String.get] in Hget. cbn [JsString.split].
      destruct (is_newline c0) eqn:Hc0.
      * cbn [JsString.append_head locate_from].
        rewrite JsStringFacts.append_empty_r.
        case_geb; [lia|].
        destruct (IH EmptyString (i + 1)
                     (chars + Z.of_nat (String.length p) + 1) o Hget Hc)
          as (k & col & Hloc & Hcol & Hchar).
        rewrite JsStringFacts.append_head_empty in Hloc, Hchar
          by apply JsStringFacts.split_not_nil.
        cbn [String.length] in Hloc.
        exists (S k), col. cbn [nth].
        split; [| split; [exact Hcol | exact Hchar]].
        replace (chars + Z.of_nat (String.length p) + Z.of_nat (S o))
          with (chars + Z.of_nat (String.length p) + 1 + Z.of_nat 0
                + Z.of_nat o) by lia.
        rewrite Hloc. f_equal. lia.
      * rewrite JsStringFacts.append_head_cons_head.
        destruct (IH (p ++ String c0 EmptyString)%string i chars o Hget Hc)
          as (k & col & Hloc & Hcol & Hchar).
        rewrite JsStringFacts.length_append in Hloc.
        cbn [String.length] in Hloc.
        exists k, col.
        split; [| split; [exact Hcol | exact Hchar]].
        replace (chars + Z.of_nat (String.length p) + Z.of_nat (S o))
          with (chars + Z.of_nat (String.length p + 1) + Z.of_nat o) by lia.
        exact Hloc.
Qed.

(** X7.  When the reported offset is that of a character of the text
    other than a newline, the line shown in the diagnostic holds that
    character at the reported column. *)
Theorem locate_finds_character (text : string) (o : nat) (c : ascii)
        (line col : Z) :
  String.get o text = Some c ->
  is_newline c = false ->
  locate (JsString.split is_newline text) (Z.of_nat o) = (line, col) ->
  String.get (Z.to_nat (col - 1))
             (nth (Z.to_nat (line - 1)) (JsString.split is_newline text)
                  EmptyString)
  = Some c.
Proof.
  intros Hget Hc Hloc.
  destruct (locate_from_char text EmptyString 0 0 o c Hget Hc)
    as (k & col' & Hloc' & _ & Hchar).
  rewrite JsStringFacts.append_head_empty in Hloc', Hchar
    by apply JsStringFacts.split_not_nil.
  cbn [String.length] in Hloc'. unfold locate in Hloc.
  replace (0 + Z.of_nat 0 + Z.of_nat o) with (Z.of_nat o) in Hloc' by lia.
  rewrite Hloc in Hloc'.
  assert (Hline : line = 0 + 1 + Z.of_nat k) by congruence.
  assert (Hcol : col = col') by congruence.
  replace (Z.to_nat (line - 1)) with k by lia.
  rewrite Hcol. exact Hchar.
Qed.

Lemma locate_finds_character_witness :
  String.get 4 ("{" ++ newline ++ "ab," ++ newline ++ "}") = Some ","%char
  /\ is_newline "," = false
  /\ locate (JsString.split is_newline
               ("{" ++ newline ++ "ab," ++ newline ++ "}")) (Z.of_nat 4)
     = (2, 3)
  /\ String.get (Z.to_nat (3 - 1))
                (nth (Z.to_nat (2 - 1))
                     (JsString.split is_newline
                        ("{" ++ newline ++ "ab," ++ newline ++ "}"))
                     EmptyString)
     = Some ","%char.
Proof.
  split; [reflexivity | split; [reflexivity | split; [reflexivity |]]].
  apply (locate_finds_character ("{" ++ newline ++ "ab," ++ newline ++ "}")
           4 "," 2 3); reflexivity.
Defined.

(** ** The rows of the diagnostic *)

Lemma diagnostic_rows (raw : string) (line : Z) (errorLine pointer : string) :
  diagnostic raw line errorLine pointer
  = (JsString.before "JSON at position" raw ++ newline
     ++ line_row line errorLine ++ newline
     ++ caret_row pointer ++ newline ++ hints)%string.
Proof.
  unfold diagnostic, line_row, caret_row, hints.
  repeat rewrite JsStringFacts.append_assoc. reflexivity.
Qed.

Lemma get_repeat_spaces (k : nat) (rest : string) :
  String.get k (JsString.repeat " " k ++ rest) = String.get 0 rest.
Proof.
  induction k as [|k IH]; [reflexivity | exact IH].
Qed.

(** The decimal form of a number below 100 has one digit up to 9 and two
    from 10 on. *)
Lemma of_Z_length (n : nat) :
  (n < 100)%nat ->
  String.length (JsString.of_Z (Z.of_nat n))
  = if (n <? 10)%nat then 1%nat else 2%nat.
Proof.
  intros Hn.
  do 100 (destruct n as [|n]; [reflexivity|]). lia.
Qed.

(** X8.  In the diagnostic, the character at column [col] of the
    offending line stands at index [10 + digits + col - 1] of the row
    that shows the line, [digits] being the number of digits of the line
    number, and the caret at index [12 + col - 1] of the row below.  The
    caret is under that character when the line number has two digits
    (lines 10 to 99), and one position to the right of it for the lines 1
    to 9. *)
Theorem caret_alignment (raw : string) (line col : Z) (errorLine : string)
        (c : ascii) :
  1 <= col ->
  String.get (Z.to_nat (col - 1)) errorLine = Some c ->
  diagnostic raw line errorLine (pointer_at col)
  = (JsString.before "JSON at position" raw ++ newline
     ++ line_row line errorLine ++ newline
     ++ caret_row (pointer_at col) ++ newline ++ hints)%string
  /\ String.get (10 + String.length (JsString.of_Z line) + Z.to_nat (col - 1))
                (line_row line errorLine)
     = Some c
  /\ String.get (12 + Z.to_nat (col - 1)) (caret_row (pointer_at col))
     = Some "^"%char
  /\ (1 <= line <= 9 -> String.length (JsString.of_Z line) = 1%nat)
  /\ (10 <= line <= 99 -> String.length (JsString.of_Z line) = 2%nat).
Proof.
  intros Hcol Hget.
  split; [apply diagnostic_rows | split; [| split; [| split]]].
  - unfold line_row.
    replace (10 + String.length (JsString.of_Z line) + Z.to_nat (col - 1))%nat
      with (Z.to_nat (col - 1) + String.length ": "
            + String.length (JsString.of_Z line)
            + String.length "   Line ")%nat
      by (cbn [String.length]; lia).
    rewrite <- (String.append_correct2 "   Line ").
    rewrite <- (String.append_correct2 (JsString.of_Z line)).
    rewrite <- (String.append_correct2 ": "). exact Hget.
  - unfold caret_row, pointer_at.
    replace (12 + Z.to_nat (col - 1))%nat
      with (Z.to_nat (col - 1) + String.length "            ")%nat
      by (cbn [String.length]; lia).
    rewrite <- (String.append_correct2 "            ").
    now rewrite get_repeat_spaces.
  - intros Hline.
    replace line with (Z.of_nat (Z.to_nat line)) by lia.
    rewrite of_Z_length by lia.
    destruct (Nat.ltb_spec (Z.to_nat line) 10); [reflexivity | lia].
  - intros Hline.
    replace line with (Z.of_nat (Z.to_nat line)) by lia.
    rewrite of_Z_length by lia.
    destruct (Nat.ltb_spec (Z.to_nat line) 10); [lia | reflexivity].
Qed.

Lemma caret_alignment_witness :
  1 <= 8
  /\ String.get (Z.to_nat (8 - 1)) "[1, 2, ]" = Some "]"%char
  /\ String.get (10 + 1 + 7) (line_row 1 "[1, 2, ]") = Some "]"%char
  /\ String.get (12 + 7) (caret_row (pointer_at 8)) = Some "^"%char.
Proof.
  split; [lia | split; [reflexivity |]].
  pose proof (caret_alignment "Unexpected token ] in JSON at position 7"
                1 8 "[1, 2, ]" "]" ltac:(lia) eq_refl) as H.
  split; [exact (proj1 (proj2 H)) | exact (proj1 (proj2 (proj2 H)))].
Defined.

End DiagnosticFacts.

(* ================================================================== *)
(** * Properties of [highlightJson] *)
(* ================================================================== *)

Module HighlightFacts.

Import Js Highlight Document.
Local Open Scope string_scope.

(** Induction on a value with the hypothesis for every element of an array
    and every field of an object. *)
Lemma value_nested_ind (host : Type) (P : value host -> Prop) :
  P VUndefined -> P VNull ->
  (forall b, P (VBool b)) -> (forall n, P (VNum n)) -> (forall s, P (VStr s)) ->
  (forall elems, Forall P elems -> P (VArr elems)) ->
  (forall fields, Forall (fun field => P (snd field)) fields ->
                  P (VObj fields)) ->
  (forall h, P (VHost h)) ->
  forall v, P v.
Proof.
  intros Hu Hn Hb Hnum Hs Harr Hobj Hh.
  fix IH 1. intros [| | b | n | s | elems | fields | h];
    [exact Hu | exact Hn | apply Hb | apply Hnum | apply Hs | | | apply Hh].
  - apply Harr.
    exact ((fix all (l : list (value host)) : Forall P l :=
              match l with
              | [] => Forall_nil P
              | x :: l' => Forall_cons x (IH x) (all l')
              end) elems).
  - apply Hobj.
    exact ((fix all (l : list (string * value host))
              : Forall (fun field => P (snd field)) l :=
              match l with
              | [] => Forall_nil _
              | f :: l' => Forall_cons f (IH (snd f)) (all l')
              end) fields).
Qed.

(** ** Shifting text to the right *)

Lemma shift_append (a b : string) : shift (a ++ b) = shift a ++ shift b.
Proof.
  induction a as [|c a IH]; simpl; [reflexivity|].
  destruct (Ascii.eqb c "010"); now rewrite IH.
Qed.

Lemma shift_one_line (s : string) : one_line s = true -> shift s = s.
Proof.
  unfold one_line. induction s as [|c s IH]; simpl; [reflexivity|].
  intros H. apply andb_true_iff in H. destruct H as [Hc Hs].
  apply negb_true_iff in Hc. now rewrite Hc, IH.
Qed.

Lemma one_line_append (a b : string) :
  one_line (a ++ b) = one_line a && one_line b.
Proof.
  unfold one_line. induction a as [|c a IH]; simpl; [reflexivity|].
  now rewrite IH, andb_assoc.
Qed.

Lemma one_line_pad (indent : nat) :
  one_line (JsString.repeat "  " indent) = true.
Proof.
  induction indent as [|n IH]; [reflexivity | exact IH].
Qed.

Lemma shift_concat (sep : string) (items : list string) :
  shift (String.concat sep items)
  = String.concat (shift sep) (map shift items).
Proof.
  induction items as [|x items IH]; [reflexivity|].
  destruct items as [|y items]; [reflexivity|].
  change (String.concat sep (x :: y :: items))
    with (x ++ sep ++ String.concat sep (y :: items)).
  change (map shift (x :: y :: items))
    with (shift x :: map shift (y :: items)).
  change (String.concat (shift sep) (shift x :: map shift (y :: items)))
    with (shift x ++ shift sep
          ++ String.concat (shift sep) (map shift (y :: items))).
  now rewrite !shift_append, IH.
Qed.

(** A block one level deeper is the block shifted, when its items are. *)
Lemma shift_block (open close : string) (indent : nat) (items : list string) :
  one_line open = true -> one_line close = true ->
  shift (block open close (JsString.repeat "  " indent) items)
  = block open close (JsString.repeat "  " (S indent)) (map shift items).
Proof.
  intros Ho Hc. unfold block.
  rewrite !shift_append, shift_concat, !shift_append.
  rewrite (shift_one_line open Ho), (shift_one_line close Hc).
  rewrite (shift_one_line _ (one_line_pad indent)).
  cbn [JsString.repeat]. simpl shift.
  repeat rewrite JsStringFacts.append_assoc. reflexivity.
Qed.

Section Rendering.

Variable R : Runtime.
Variable chalk : style -> string -> string.
Variable number_to_string : float -> string.
Variable host_highlight : host R -> nat -> string.

#[warning="-notation-for-abbreviation"]
Local Notation render := (highlightJson R chalk number_to_string host_highlight).
#[warning="-notation-for-abbreviation"]
Local Notation find := (lookup_render R chalk number_to_string host_highlight).

Lemma highlight_object (fields : list (string * value (host R)))
      (indent : nat) :
  render (VObj fields) indent
  = match fields with
    | [] => "{}"
    | _ :: _ =>
        block "{" "}" (JsString.repeat "  " indent)
              (map (fun key =>
                      chalk Cyan (quote ++ key ++ quote) ++ ": "
                      ++ find indent key fields)
                   (map fst fields))
    end.
Proof.
  destruct fields as [|[k x] fields]; reflexivity.
Qed.

Lemma highlight_array (elems : list (value (host R))) (indent : nat) :
  render (VArr elems) indent
  = match elems with
    | [] => "[]"
    | _ :: _ =>
        block "[" "]" (JsString.repeat "  " indent)
              (map (fun item => render item (S indent)) elems)
    end.
Proof.
  destruct elems; reflexivity.
Qed.

End Rendering.

Section Nesting.

Variable R : Runtime.
Variable chalk : style -> string -> string.
Variable number_to_string : float -> string.
Variable host_highlight : host R -> nat -> string.

#[warning="-notation-for-abbreviation"]
Local Notation render := (highlightJson R chalk number_to_string host_highlight).
#[warning="-notation-for-abbreviation"]
Local Notation find := (lookup_render R chalk number_to_string host_highlight).

Hypothesis chalk_one_line :
  forall (st : style) (text : string),
    one_line text = true -> one_line (chalk st text) = true.
Hypothesis number_one_line :
  forall n : float, one_line (number_to_string n) = true.

(** The property of one value: a level deeper, the rendering is shifted. *)
#[warning="-notation-for-abbreviation"]
Local Notation nests := (fun v : value (host R) =>
  is_json v = true -> one_line_strings v = true ->
  forall indent : nat, render v (S indent) = shift (render v indent)).

Lemma find_nests (fields : list (string * value (host R))) (key : string)
      (indent : nat) :
  Forall (fun field => nests (snd field)) fields ->
  forallb (fun field => is_json (snd field)) fields = true ->
  forallb (fun field => one_line (fst field) && one_line_strings (snd field))
          fields = true ->
  find (S indent) key fields = shift (find indent key fields).
Proof.
  induction 1 as [|[k x] fields Hx _ IH]; intros Hjson Hline; [reflexivity|].
  cbn [forallb fst snd] in Hjson, Hline.
  apply andb_true_iff in Hjson. destruct Hjson as [Hjx Hjson].
  apply andb_true_iff in Hline. destruct Hline as [Hlx Hline].
  apply andb_true_iff in Hlx. destruct Hlx as [_ Hlx].
  change (find (S indent) key ((k, x) :: fields))
    with (if String.eqb k key then render x (S (S indent))
          else find (S indent) key fields).
  change (find indent key ((k, x) :: fields))
    with (if String.eqb k key then render x (S indent)
          else find indent key fields).
  destruct (String.eqb k key); [apply (Hx Hjx Hlx) | now apply IH].
Qed.

Lemma value_nests (v : value (host R)) : nests v.
Proof.
  induction v as [| | b | n | s | elems IH | fields IH | h]
    using value_nested_ind; intros Hjson Hline indent;
    try discriminate.
  - symmetry. apply shift_one_line, chalk_one_line. reflexivity.
  - symmetry. apply shift_one_line, chalk_one_line. now destruct b.
  - symmetry. apply shift_one_line, chalk_one_line, number_one_line.
  - symmetry. apply shift_one_line, chalk_one_line.
    cbn [one_line_strings] in Hline.
    now rewrite !one_line_append, Hline.
  - rewrite !highlight_array. destruct elems as [|e elems]; [reflexivity|].
    rewrite shift_block by reflexivity. f_equal.
    rewrite (map_map _ shift). apply map_ext_in. intros item Hin.
    cbn [is_json one_line_strings] in Hjson, Hline.
    rewrite forallb_forall in Hjson, Hline.
    rewrite Forall_forall in IH.
    now apply (IH item Hin (Hjson item Hin) (Hline item Hin)).
  - rewrite !highlight_object. destruct fields as [|f fields]; [reflexivity|].
    rewrite shift_block by reflexivity. f_equal.
    rewrite (map_map _ shift). apply map_ext_in. intros key Hin.
    cbn [is_json one_line_strings] in Hjson, Hline.
    rewrite !shift_append.
    rewrite <- (find_nests (f :: fields) key indent IH Hjson Hline).
    apply in_map_iff in Hin. destruct Hin as (field & Hkey & Hin).
    rewrite forallb_forall in Hline. specialize (Hline field Hin).
    apply andb_true_iff in Hline. destruct Hline as [Hk _].
    rewrite Hkey in Hk.
    rewrite (shift_one_line (chalk Cyan (quote ++ key ++ quote))).
    + reflexivity.
    + apply chalk_one_line. now rewrite !one_line_append, Hk.
Qed.

End Nesting.

(** X10.  For a JSON value without a newline in any of its strings and
    keys, and styles and number texts that add none, the rendering one
    level deeper is the rendering shifted: the same text with two more
    spaces at the start of every line after the first. *)
Theorem highlight_deeper (R : Runtime)
        (chalk : style -> string -> string)
        (number_to_string : float -> string)
        (host_highlight : host R -> nat -> string)
        (v : value (host R)) (indent : nat) :
  (forall (st : style) (text : string),
      one_line text = true -> one_line (chalk st text) = true) ->
  (forall n : float, one_line (number_to_string n) = true) ->
  is_json v = true ->
  one_line_strings v = true ->
  highlightJson R chalk number_to_string host_highlight v (S indent)
  = shift (highlightJson R chalk number_to_string host_highlight v indent).
Proof.
  intros Hchalk Hnum Hjson Hline.
  now apply value_nests.
Qed.

Lemma highlight_deeper_witness :
  (forall (st : style) (text : string),
      one_line text = true -> one_line ((fun _ t => t) st text) = true)
  /\ (forall n : float, one_line ((fun _ => "0") n) = true)
  /\ is_json (@VArr Node.builtin [VNull; VObj [("a", VStr "x")]]) = true
  /\ one_line_strings (@VArr Node.builtin [VNull; VObj [("a", VStr "x")]])
     = true
  /\ highlightJson Node.runtime (fun _ t => t) (fun _ => "0")
                   (fun _ _ => "builtin")
                   (VArr [VNull; VObj [("a", VStr "x")]]) 1
     = shift (highlightJson Node.runtime (fun _ t => t) (fun _ => "0")
                            (fun _ _ => "builtin")
                            (VArr [VNull; VObj [("a", VStr "x")]]) 0).
Proof.
  assert (H1 : forall (st : style) (text : string),
             one_line text = true -> one_line ((fun _ t => t) st text) = true)
    by (intros st text H; exact H).
  assert (H2 : forall n : float, one_line ((fun _ => "0") n) = true)
    by (intros n; reflexivity).
  split; [exact H1 | split; [exact H2 | split; [reflexivity |
    split; [reflexivity |]]]].
  apply (highlight_deeper Node.runtime (fun _ t => t) (fun _ => "0")
           (fun _ _ => "builtin") (VArr [VNull; VObj [("a", VStr "x")]]) 0
           H1 H2); reflexivity.
Defined.

End HighlightFacts.

(* ================================================================== *)
(** * Properties of [main] *)
(* ================================================================== *)

Module CliFacts.

Import Js Highlight Cli.
Local Open Scope string_scope.

Lemma is_flag_true (arg short long : string) :
  is_flag arg short long = true -> arg = short \/ arg = long.
Proof.
  unfold is_flag. intros H. apply orb_true_iff in H.
  destruct H as [H | H]; apply String.eqb_eq in H; auto.
Qed.

Lemma all_space_trim (data : string) :
  JsString.forallb is_space data = true -> trim data = EmptyString.
Proof.
  unfold trim. induction data as [|c data IH]; [reflexivity|].
  cbn [JsString.forallb trim_start]. intros H.
  apply andb_true_iff in H. destruct H as [Hc Hdata].
  rewrite Hc. now apply IH.
Qed.

(** ** The arguments *)

Lemma parse_args_help (pre : list string) (h : string) (post : list string) :
  Forall (fun arg => is_flag arg "-p" "--path" = false
                     /\ is_flag arg "-h" "--help" = false
                     /\ is_flag arg "-v" "--version" = false) pre ->
  is_flag h "-h" "--help" = true ->
  forall opts, parse_args (pre ++ h :: post) opts = Help.
Proof.
  intros Hpre Hh. induction Hpre as [|arg pre (Hp & Hhelp & Hv) _ IH];
    intros opts.
  - destruct (is_flag_true _ _ _ Hh) as [-> | ->]; reflexivity.
  - cbn [app parse_args]. rewrite Hp, Hhelp, Hv.
    destruct (is_flag arg "-c" "--copy"); [apply IH|].
    destruct (String.eqb arg "--no-color"); apply IH.
Qed.

Lemma parse_args_copy (n : nat) :
  forall (args : list string) (opts opts' : options),
    (List.length args <= n)%nat ->
    parse_args args opts = Options opts' ->
    copy opts' = true ->
    copy opts = true \/ In "-c" args \/ In "--copy" args.
Proof.
  induction n as [|n IH]; intros args opts opts' Hlen Hparse Hcopy.
  - destruct args; [| simpl in Hlen; lia].
    simpl in Hparse. inversion Hparse; subst. now left.
  - destruct args as [|arg rest].
    + simpl in Hparse. inversion Hparse; subst. now left.
    + cbn [parse_args] in Hparse. simpl in Hlen.
      destruct (is_flag arg "-p" "--path").
      { destruct rest as [|operand rest'].
        - inversion Hparse; subst. now left.
        - simpl in Hlen.
          destruct (IH rest' _ opts' ltac:(lia) Hparse Hcopy)
            as [H | [H | H]]; simpl in *; auto. }
      destruct (is_flag arg "-c" "--copy") eqn:Hc.
      { destruct (is_flag_true _ _ _ Hc) as [-> | ->]; simpl; auto. }
      destruct (String.eqb arg "--no-color").
      { destruct (IH rest _ opts' ltac:(lia) Hparse Hcopy)
          as [H | [H | H]]; simpl in *; auto. }
      destruct (is_flag arg "-h" "--help"); [discriminate|].
      destruct (is_flag arg "-v" "--version"); [discriminate|].
      destruct (IH rest _ opts' ltac:(lia) Hparse Hcopy)
        as [H | [H | H]]; simpl in *; auto.
Qed.

Section MainFacts.

Variable R : Runtime.
Variable env : environment R.

Lemma safeParse_returns (str : string) (data : value (host R)) :
  Parse.safeParse (host R) (JSON_parse R env) str = Return data ->
  JSON_parse R env str = Return data.
Proof.
  unfold Parse.safeParse.
  destruct (JSON_parse R env str) as [v | err]; [auto|].
  rewrite ParseFacts.rethrow_throws.
  destruct (Parse.match_position (message err)); [| discriminate].
  cbv zeta. destruct (Parse.locate _ _). discriminate.
Qed.

(** Without [--copy], the part after the arguments writes nothing to the
    clipboard. *)
Lemma run_no_copy (opts : options) (text : option string) :
  copy opts = false ->
  ~ In (ClipboardWrite text) (fst (run R env opts)).
Proof.
  intros Hcopy. unfold run, unexpected, console_log. rewrite Hcopy.
  repeat match goal with
         | |- context [match ?x with _ => _ end] => destruct x
         end;
    simpl; intuition discriminate.
Qed.

End MainFacts.

(** X11.  When [-h] or [--help] comes before any [-p], [--path], [-v] or
    [--version], the program prints the usage text and exits with status
    0 whatever else is on the command line; it reads no input. *)
Theorem help_comes_first (R : Runtime) (env : environment R)
        (pre : list string) (h : string) (post : list string) :
  Forall (fun arg => is_flag arg "-p" "--path" = false
                     /\ is_flag arg "-h" "--help" = false
                     /\ is_flag arg "-v" "--version" = false) pre ->
  is_flag h "-h" "--help" = true ->
  main R env (pre ++ h :: post) = ([Stdout usage], 0%Z).
Proof.
  intros Hpre Hh. unfold main.
  now rewrite (parse_args_help pre h post Hpre Hh).
Qed.

(** X12.  Unless [-c] or [--copy] is among the arguments, the program
    never writes to the clipboard. *)
Theorem no_clipboard_write_without_flag (R : Runtime) (env : environment R)
        (args : list string) (text : option string) :
  ~ In "-c" args ->
  ~ In "--copy" args ->
  ~ In (ClipboardWrite text) (fst (main R env args)).
Proof.
  intros Hc Hcopy. unfold main.
  destruct (parse_args args initial_options) as [opts | |] eqn:Hparse.
  - apply run_no_copy.
    destruct (copy opts) eqn:E; [| reflexivity].
    destruct (parse_args_copy (List.length args) args initial_options opts
                              (le_n _) Hparse E) as [H | [H | H]];
      [discriminate | contradiction | contradiction].
  - simpl. intuition discriminate.
  - destruct (package_version R env); unfold unexpected; simpl;
      intuition discriminate.
Qed.

(** X13.  When the program, past its arguments, exits with status 0, the
    input it read was not empty, [JSON.parse] accepted it, and a requested
    path led to a value other than [undefined]. *)
Theorem success_means_valid (R : Runtime) (env : environment R)
        (args : list string) (opts : options) (trace : list event) :
  parse_args args initial_options = Options opts ->
  main R env args = (trace, 0%Z) ->
  exists (jsonStr : string) (data : value (host R)),
    acquire R env = Return jsonStr
    /\ jsonStr <> EmptyString
    /\ JSON_parse R env jsonStr = Return data
    /\ match requested_path opts with
       | Some p =>
           exists value, Extract.extractPath R data p = Return value
                         /\ value <> VUndefined
       | None => True
       end.
Proof.
  intros Hparse Hmain. unfold main in Hmain. rewrite Hparse in Hmain.
  unfold run in Hmain.
  destruct (acquire R env) as [[|c s] | err]; try discriminate.
  destruct (Parse.safeParse (host R) (JSON_parse R env) (String c s))
    as [data | err] eqn:Hdata; try discriminate.
  exists (String c s), data.
  split; [reflexivity | split; [discriminate | split]].
  - now apply safeParse_returns.
  - destruct (requested_path opts) as [p|]; [| exact I].
    destruct (Extract.extractPath R data p) as [value | err];
      [| unfold unexpected in Hmain; discriminate].
    exists value. split; [reflexivity|].
    intros ->. discriminate.
Qed.

(** X14.  Piped input that is empty or made of white space only is
    reported as missing data with exit status 1; the parser is not
    consulted. *)
Theorem blank_stdin_is_no_data (R : Runtime) (env : environment R)
        (args : list string) (opts : options) (data : string) :
  parse_args args initial_options = Options opts ->
  stdin R env = Some data ->
  JsString.forallb is_space data = true ->
  main R env args
  = ([Stderr (chalk R env Red "❌ No JSON data found.");
      Stderr (chalk R env Gray "   Copy JSON to clipboard or pipe via stdin.")],
     1%Z).
Proof.
  intros Hparse Hstdin Hblank. unfold main. rewrite Hparse.
  unfold run, acquire. rewrite Hstdin, (all_space_trim data Hblank).
  reflexivity.
Qed.

Lemma help_comes_first_witness :
  Forall (fun arg => is_flag arg "-p" "--path" = false
                     /\ is_flag arg "-h" "--help" = false
                     /\ is_flag arg "-v" "--version" = false)
         ["--no-color"; "data.json"]
  /\ is_flag "--help" "-h" "--help" = true
  /\ main Node.runtime (Example.piped "null")
          (["--no-color"; "data.json"] ++ "--help" :: ["-p"])
     = ([Stdout usage], 0%Z).
Proof.
  assert (Hpre : Forall (fun arg => is_flag arg "-p" "--path" = false
                                    /\ is_flag arg "-h" "--help" = false
                                    /\ is_flag arg "-v" "--version" = false)
                        ["--no-color"; "data.json"])
    by (repeat constructor).
  split; [exact Hpre | split; [reflexivity |]].
  apply (help_comes_first Node.runtime (Example.piped "null")
           ["--no-color"; "data.json"] "--help" ["-p"] Hpre eq_refl).
Defined.

Lemma no_clipboard_write_without_flag_witness :
  ~ In "-c" ["--no-color"]
  /\ ~ In "--copy" ["--no-color"]
  /\ ~ In (ClipboardWrite (Some "null"))
          (fst (main Node.runtime (Example.piped "null") ["--no-color"])).
Proof.
  assert (H1 : ~ In "-c" ["--no-color"]) by (simpl; intuition discriminate).
  assert (H2 : ~ In "--copy" ["--no-color"])
    by (simpl; intuition discriminate).
  split; [exact H1 | split; [exact H2 |]].
  apply (no_clipboard_write_without_flag Node.runtime (Example.piped "null")
           ["--no-color"] (Some "null") H1 H2).
Defined.

Lemma success_means_valid_witness :
  parse_args ["-c"] initial_options
  = Options {| path := None; copy := true; color := true |}
  /\ main Node.runtime (Example.piped " null ") ["-c"]
     = ([Stdout "null"; ClipboardWrite (Some "null");
         Stdout "✓ Formatted JSON copied to clipboard"], 0%Z)
  /\ exists (jsonStr : string) (data : value Node.builtin),
       acquire Node.runtime (Example.piped " null ") = Return jsonStr
       /\ jsonStr <> EmptyString
       /\ JSON_parse Node.runtime (Example.piped " null ") jsonStr
          = Return data
       /\ True.
Proof.
  split; [reflexivity | split; [reflexivity |]].
  apply (success_means_valid Node.runtime (Example.piped " null ") ["-c"]
           {| path := None; copy := true; color := true |}
           [Stdout "null"; ClipboardWrite (Some "null");
            Stdout "✓ Formatted JSON copied to clipboard"]);
    reflexivity.
Defined.

Lemma blank_stdin_is_no_data_witness :
  parse_args ["-c"] initial_options
  = Options {| path := None; copy := true; color := true |}
  /\ stdin Node.runtime (Example.piped (" " ++ Highlight.newline)) 
     = Some (" " ++ Highlight.newline)
  /\ JsString.forallb is_space (" " ++ Highlight.newline) = true
  /\ main Node.runtime (Example.piped (" " ++ Highlight.newline)) ["-c"]
     = ([Stderr "❌ No JSON data found.";
         Stderr "   Copy JSON to clipboard or pipe via stdin."], 1%Z).
Proof.
  split; [reflexivity | split; [reflexivity | split; [reflexivity |]]].
  apply (blank_stdin_is_no_data Node.runtime
           (Example.piped (" " ++ Highlight.newline)) ["-c"]
           {| path := None; copy := true; color := true |}
           (" " ++ Highlight.newline)); reflexivity.
Defined.

(** X15.  The program fails before it prints: when it exits with status
    1, it has written nothing to the standard output, unless the failure
    is that of the clipboard write, which follows the printing. *)
Theorem failure_precedes_output (R : Runtime) (env : environment R)
        (args : list string) (trace : list event) (text : string) :
  main R env args = (trace, 1%Z) ->
  In (Stdout text) trace ->
  exists copied, In (ClipboardWrite copied) trace.
Proof.
  unfold main, run, unexpected, console_log.
  repeat match goal with
         | |- context [match ?x with _ => _ end] => destruct x
         end;
    intros Hmain Hin; try discriminate;
    injection Hmain as <-; simpl in Hin |- *;
    try (intuition discriminate); eauto.
Qed.

Lemma failure_precedes_output_witness :
  main Node.runtime (Example.read_only "null") ["--copy"]
  = ([Stdout "null"; ClipboardWrite (Some "null");
      Stderr "❌ Unexpected error:";
      Stderr "Couldn't find the required `xsel` binary"], 1%Z)
  /\ exists copied,
       In (ClipboardWrite copied)
          [Stdout "null"; ClipboardWrite (Some "null");
           Stderr "❌ Unexpected error:";
           Stderr "Couldn't find the required `xsel` binary"].
Proof.
  split; [reflexivity |].
  apply (failure_precedes_output Node.runtime (Example.read_only "null")
           ["--copy"] _ "null"); [reflexivity | simpl; auto].
Defined.

End CliFacts.

(* ================================================================== *)
(** * The line and column that [safeParse] reports *)
(* ================================================================== *)

Module ReportFacts.

Import Js Parse Rows.
Local Open Scope string_scope.
Local Open Scope Z_scope.

(** ** The offset in the message *)

Lemma take_digits_append (digits tail : string) :
  JsString.forallb JsString.is_digit digits = true ->
  (forall c rest, tail = String c rest -> JsString.is_digit c = false) ->
  JsString.take_digits (digits ++ tail) = digits.
Proof.
  intros Hdig Htail. induction digits as [|d digits IH].
  - destruct tail as [|c rest]; [reflexivity|].
    simpl. now rewrite (Htail c rest eq_refl).
  - cbn [JsString.forallb] in Hdig. apply andb_true_iff in Hdig.
    destruct Hdig as [Hd Hrest].
    cbn [append JsString.take_digits]. rewrite Hd. now rewrite IH.
Qed.

(** The expression matches at the start of a text only if the text
    starts with ["position "] and a digit: a match that starts within
    [head] and ahead of a following ["position "] lies within [head]. *)
Lemma position_here_within (head rest digits : string) :
  head <> EmptyString ->
  position_here (head ++ "position " ++ rest) = Some digits ->
  exists d post,
    head = "position " ++ String d post /\ JsString.is_digit d = true.
Proof.
  intros Hne H. unfold position_here in H.
  destruct head as [|c1 head]; [congruence|]. clear Hne.
  cbn [append JsString.strip_prefix] in H.
  destruct (Ascii.eqb "p" c1) eqn:E1; [| discriminate H].
  apply Ascii.eqb_eq in E1. subst c1.
  destruct head as [|c2 head]; [discriminate H|].
  cbn [append JsString.strip_prefix] in H.
  destruct (Ascii.eqb "o" c2) eqn:E2; [| discriminate H].
  apply Ascii.eqb_eq in E2. subst c2.
  destruct head as [|c3 head]; [discriminate H|].
  cbn [append JsString.strip_prefix] in H.
  destruct (Ascii.eqb "s" c3) eqn:E3; [| discriminate H].
  apply Ascii.eqb_eq in E3. subst c3.
  destruct head as [|c4 head]; [discriminate H|].
  cbn [append JsString.strip_prefix] in H.
  destruct (Ascii.eqb "i" c4) eqn:E4; [| discriminate H].
  apply Ascii.eqb_eq in E4. subst c4.
  destruct head as [|c5 head]; [discriminate H|].
  cbn [append JsString.strip_prefix] in H.
  destruct (Ascii.eqb "t" c5) eqn:E5; [| discriminate H].
  apply Ascii.eqb_eq in E5. subst c5.
  destruct head as [|c6 head]; [discriminate H|].
  cbn [append JsString.strip_prefix] in H.
  destruct (Ascii.eqb "i" c6) eqn:E6; [| discriminate H].
  apply Ascii.eqb_eq in E6. subst c6.
  destruct head as [|c7 head]; [discriminate H|].
  cbn [append JsString.strip_prefix] in H.
  destruct (Ascii.eqb "o" c7) eqn:E7; [| discriminate H].
  apply Ascii.eqb_eq in E7. subst c7.
  destruct head as [|c8 head]; [discriminate H|].
  cbn [append JsString.strip_prefix] in H.
  destruct (Ascii.eqb "n" c8) eqn:E8; [| discriminate H].
  apply Ascii.eqb_eq in E8. subst c8.
  destruct head as [|c9 head]; [discriminate H|].
  cbn [append JsString.strip_prefix] in H.
  destruct (Ascii.eqb " " c9) eqn:E9; [| discriminate H].
  apply Ascii.eqb_eq in E9. subst c9.
  destruct head as [|d head]; [discriminate H|].
  cbn [append] in H.
  destruct (JsString.is_digit d) eqn:Hd; [| discriminate H].
  exists d, head. split; [reflexivity | exact Hd].
Qed.

(** The offset that [safeParse] reads: the digits after the first
    ["position "] that a digit follows. *)
Lemma match_position_found (head digits tail : string) :
  (forall pre d post,
      head = pre ++ "position " ++ String d post ->
      JsString.is_digit d = false) ->
  JsString.all_digits digits = true ->
  (forall c rest, tail = String c rest -> JsString.is_digit c = false) ->
  match_position (head ++ "position " ++ digits ++ tail) = Some digits.
Proof.
  intros Hhead Hdig Htail. induction head as [|c head IH].
  - unfold JsString.all_digits in Hdig. apply andb_true_iff in Hdig.
    destruct Hdig as [Hne Hall].
    destruct digits as [|d digits]; [discriminate|].
    cbn [JsString.forallb] in Hall. apply andb_true_iff in Hall.
    destruct Hall as [Hd Hrest].
    change (EmptyString ++ "position " ++ String d digits ++ tail)
      with ("position " ++ String d (digits ++ tail)).
    apply ParseFacts.match_position_here.
    rewrite (ParseFacts.position_here_complete d (digits ++ tail) Hd).
    now rewrite (take_digits_append digits tail Hrest Htail).
  - change ((String c head) ++ "position " ++ digits ++ tail)
      with (String c (head ++ "position " ++ digits ++ tail)).
    cbn [match_position].
    destruct (position_here (String c (head ++ "position " ++ digits ++ tail)))
      as [found|] eqn:E.
    + exfalso.
      destruct (position_here_within (String c head) (digits ++ tail) found
                  ltac:(discriminate) E) as (d & post & Heq & Hd).
      rewrite (Hhead EmptyString d post Heq) in Hd. discriminate.
    + apply IH. intros pre d post Heq.
      apply (Hhead (String c pre) d post). now rewrite Heq.
Qed.

(** C3.  When [JSON.parse] rejects a text with a message that holds an
    offset [o] (the digits after its first ["position "] followed by a
    digit), [safeParse] throws a diagnostic that reports a line and a
    column: the row ["   Line <line>: "] followed by the text of that
    line, and under it a caret after [col - 1] spaces (and the margin).
    The line is the 1-based index of the first line of the text at which
    the running total (the characters before the line, one more for each
    newline, plus its own length) meets or exceeds [o], the column is [o]
    minus the characters before that line plus 1, and both are 1 when no
    line is found.  For an offset within the text they are the line and
    column found by counting newlines by hand over the first [o]
    characters; for an offset beyond the text the line is 1. *)
Theorem safeParse_reports_line_column (host : Type)
        (JSON_parse : string -> completion (value host))
        (str : string) (err : exn) (head digits tail : string) :
  JSON_parse str = Throw err ->
  message err = head ++ "position " ++ digits ++ tail ->
  (forall pre d post,
      head = pre ++ "position " ++ String d post ->
      JsString.is_digit d = false) ->
  JsString.all_digits digits = true ->
  (forall c rest, tail = String c rest -> JsString.is_digit c = false) ->
  exists line col : Z,
    safeParse host JSON_parse str
    = Throw (Error (JsString.before "JSON at position" (message err)
                    ++ newline
                    ++ line_row line
                         (nth (Z.to_nat (line - 1))
                              (JsString.split is_newline str) EmptyString)
                    ++ newline
                    ++ caret_row (pointer_at col) ++ newline ++ hints))
    /\ (line, col)
       = locate_spec (JsString.split is_newline str) (JsString.parseInt digits)
    /\ (line, col)
       = if JsString.parseInt digits <=? Z.of_nat (String.length str)
         then line_col_by_hand str (Z.to_nat (JsString.parseInt digits))
         else (1, 1).
Proof.
  intros Hparse Hmsg Hhead Hdig Htail.
  pose proof (match_position_found head digits tail Hhead Hdig Htail) as Hm.
  rewrite <- Hmsg in Hm.
  pose proof (IndexFacts.parseInt_nonneg digits) as Hpos.
  destruct (ParseFacts.locate_line_column
              str (Z.to_nat (JsString.parseInt digits))) as [Hspec Hhand].
  rewrite Z2Nat.id in Hspec, Hhand by exact Hpos.
  destruct (locate (JsString.split is_newline str) (JsString.parseInt digits))
    as [line col] eqn:Hloc.
  exists line, col. split; [| split].
  - unfold safeParse. rewrite Hparse, ParseFacts.rethrow_throws, Hm.
    cbv zeta. rewrite Hloc. rewrite DiagnosticFacts.diagnostic_rows.
    reflexivity.
  - exact Hspec.
  - rewrite Hhand.
    destruct (Z.leb_spec (JsString.parseInt digits)
                         (Z.of_nat (String.length str)));
      destruct (Nat.leb_spec (Z.to_nat (JsString.parseInt digits))
                             (String.length str));
      try reflexivity; lia.
Qed.

Lemma safeParse_reports_line_column_witness :
  let text := "{" ++ newline ++ "ab," ++ newline ++ "}" in
  let raw := "Unexpected token } in JSON at position 6" in
  exists line col : Z,
    safeParse Node.builtin (fun _ => Throw (SyntaxError raw)) text
    = Throw (Error ("Unexpected token } in " ++ newline
                    ++ line_row line
                         (nth (Z.to_nat (line - 1))
                              (JsString.split is_newline text) EmptyString)
                    ++ newline
                    ++ caret_row (pointer_at col) ++ newline ++ hints))
    /\ (line, col) = (3, 1)
    /\ (line, col) = line_col_by_hand text 6.
Proof.
  cbv zeta.
  apply (safeParse_reports_line_column Node.builtin
           (fun _ => Throw (SyntaxError "Unexpected token } in JSON at position 6"))
           ("{" ++ newline ++ "ab," ++ newline ++ "}")
           (SyntaxError "Unexpected token } in JSON at position 6")
           "Unexpected token } in JSON at " "6" EmptyString).
  - reflexivity.
  - reflexivity.
  - apply ParseFacts.match_position_none. reflexivity.
  - reflexivity.
  - intros c rest H. discriminate H.
Defined.

End ReportFacts.

(* ================================================================== *)
(** * Properties of the JSON built-ins *)
(* ================================================================== *)

Module JsonFacts.

Import Js Json.
Local Open Scope string_scope.

(** ** The order of the properties of an object *)

Section Properties.

Variable host : Type.
#[warning="-notation-for-abbreviation"] Local Notation val := (value host).
#[warning="-notation-for-abbreviation"]
Local Notation properties := (list (string * val)).

Lemma array_index_nonneg (key : string) (i : Z) :
  array_index key = Some i -> (0 <= i)%Z.
Proof.
  unfold array_index.
  destruct (JsString.all_digits key && _ && _); [|discriminate].
  intros Hi.
  injection Hi as <-. apply IndexFacts.parseInt_nonneg.
Qed.

Lemma has_key_false (key : string) (props : properties) :
  ~ In key (map fst props) -> has_key key props = false.
Proof.
  induction props as [|[k x] props IH]; simpl; intros Hin; [reflexivity|].
  destruct (String.eqb_spec k key) as [->|Hne]; simpl.
  - exfalso. apply Hin. now left.
  - apply IH. intros H. apply Hin. now right.
Qed.

(** The last key of an ordered list, when it is an index, is not below
    the bound. *)
Lemma ordered_last (keys : list string) (low : Z) (key : string) (i : Z) :
  ordered low (keys ++ [key]) = true -> array_index key = Some i ->
  (low <= i)%Z.
Proof.
  revert low. induction keys as [|k keys IH]; intros low; simpl;
    intros Hord Hkey.
  - rewrite Hkey in Hord. apply andb_true_iff in Hord.
    destruct Hord as [Hle _]. now apply Z.leb_le.
  - destruct (array_index k) as [j|].
    + apply andb_true_iff in Hord. destruct Hord as [Hle Hord].
      apply Z.leb_le in Hle. specialize (IH _ Hord Hkey). lia.
    + rewrite forallb_app in Hord. apply andb_true_iff in Hord.
      destruct Hord as [_ Hlast]. simpl in Hlast. unfold plain_key in Hlast. rewrite Hkey in Hlast.
      discriminate.
Qed.

Lemma ordered_prefix (a b : list string) (low : Z) :
  ordered low (a ++ b) = true -> ordered low a = true.
Proof.
  revert low. induction a as [|k a IH]; intros low; simpl; [reflexivity|].
  destruct (array_index k) as [j|].
  - intros H. apply andb_true_iff in H. destruct H as [Hle Hord].
    rewrite Hle. simpl. now apply IH.
  - rewrite forallb_app. intros H. apply andb_true_iff in H. tauto.
Qed.

Lemma normal_properties_prefix (a b : properties) :
  normal_properties (a ++ b) -> normal_properties a.
Proof.
  unfold normal_properties. rewrite map_app. intros [Hnd Hord]. split.
  - eapply NoDup_app_remove_r. exact Hnd.
  - eapply ordered_prefix. exact Hord.
Qed.

Lemma insert_index_last (i : Z) (key : string) (v : val) (props : properties)
      (low : Z) :
  array_index key = Some i ->
  ordered low (map fst props ++ [key]) = true ->
  insert_index i key v props = (props ++ [(key, v)])%list.
Proof.
  intros Hkey. revert low.
  induction props as [|[k x] props IH]; intros low; simpl; [reflexivity|].
  intros Hord. destruct (array_index k) as [j|].
  - apply andb_true_iff in Hord. destruct Hord as [_ Hord].
    pose proof (ordered_last _ _ _ _ Hord Hkey) as Hle.
    apply Z.leb_le in Hle. rewrite Hle. f_equal. eapply IH. exact Hord.
  - rewrite forallb_app in Hord. apply andb_true_iff in Hord.
    destruct Hord as [_ Hlast]. simpl in Hlast. unfold plain_key in Hlast. rewrite Hkey in Hlast.
    discriminate.
Qed.

(** Defining the next property of an object in normal form appends it. *)
Lemma define_append (key : string) (v : val) (props : properties) :
  normal_properties (props ++ [(key, v)]) ->
  define key v props = (props ++ [(key, v)])%list.
Proof.
  unfold normal_properties, define. rewrite map_app. simpl.
  intros [Hnd Hord].
  rewrite has_key_false.
  - destruct (array_index key) as [i|] eqn:Hkey; [|reflexivity].
    eapply insert_index_last; eassumption.
  - apply NoDup_remove_2 in Hnd. rewrite app_nil_r in Hnd. exact Hnd.
Qed.

Lemma replace_keys (key : string) (v : val) (props : properties) :
  map fst (replace key v props) = map fst props.
Proof.
  induction props as [|[k x] props IH]; simpl; [reflexivity|].
  destruct (String.eqb k key); simpl; [reflexivity | now rewrite IH].
Qed.

Lemma insert_index_keys (i : Z) (key : string) (v : val) (props : properties)
      (k : string) :
  In k (map fst (insert_index i key v props))
  <-> k = key \/ In k (map fst props).
Proof.
  induction props as [|[k' x] props IH]; simpl.
  - intuition congruence.
  - destruct (array_index k') as [j|]; [destruct (j <=? i)%Z|]; simpl;
      rewrite ?IH; intuition congruence.
Qed.

Lemma insert_index_nodup (i : Z) (key : string) (v : val)
      (props : properties) :
  ~ In key (map fst props) -> NoDup (map fst props) ->
  NoDup (map fst (insert_index i key v props)).
Proof.
  induction props as [|[k x] props IH]; simpl; intros Hin Hnd.
  - constructor; [intros [] | constructor].
  - assert (Hnew : NoDup (key :: k :: map fst props))
      by (constructor; assumption).
    inversion Hnd as [|? ? Hk Hnd']; subst.
    destruct (array_index k) as [j|]; [destruct (j <=? i)%Z|]; simpl;
      try exact Hnew.
    constructor.
    + rewrite insert_index_keys. intros [->|H]; [|contradiction].
      apply Hin. now left.
    + apply IH; [|assumption]. intros H. apply Hin. now right.
Qed.

Lemma insert_index_ordered (i : Z) (key : string) (v : val)
      (props : properties) (low : Z) :
  array_index key = Some i -> (low <= i)%Z ->
  ordered low (map fst props) = true ->
  ordered low (map fst (insert_index i key v props)) = true.
Proof.
  intros Hkey. revert low.
  induction props as [|[k x] props IH]; intros low Hlow; simpl.
  - intros _. rewrite Hkey. apply Z.leb_le in Hlow. now rewrite Hlow.
  - destruct (array_index k) as [j|] eqn:Hk.
    + intros H. apply andb_true_iff in H. destruct H as [Hle Hord].
      destruct (j <=? i)%Z eqn:Hji; simpl.
      * rewrite Hk, Hle. simpl. apply IH; [|assumption].
        now apply Z.leb_le.
      * rewrite Hkey, Hk. apply Z.leb_le in Hlow. rewrite Hlow. simpl.
        apply Z.leb_gt in Hji.
        assert (Hij : (i <=? j)%Z = true) by (apply Z.leb_le; lia).
        now rewrite Hij.
    + intros H. simpl. rewrite Hkey, Hk. apply Z.leb_le in Hlow.
      now rewrite Hlow.
Qed.

Lemma ordered_append_plain (keys : list string) (key : string) (low : Z) :
  array_index key = None -> ordered low keys = true ->
  ordered low (keys ++ [key]) = true.
Proof.
  intros Hkey. revert low.
  induction keys as [|k keys IH]; intros low; simpl.
  - now rewrite Hkey.
  - destruct (array_index k) as [j|].
    + intros H. apply andb_true_iff in H. destruct H as [Hle Hord].
      rewrite Hle. simpl. now apply IH.
    + intros H. rewrite forallb_app, H. simpl. unfold plain_key.
      now rewrite Hkey.
Qed.

(** Defining a property keeps the normal form. *)
Lemma define_normal (key : string) (v : val) (props : properties) :
  normal_properties props -> normal_properties (define key v props).
Proof.
  unfold normal_properties, define. intros [Hnd Hord].
  destruct (has_key key props) eqn:Hhas.
  - now rewrite replace_keys.
  - assert (Hin : ~ In key (map fst props)).
    { intros Hin. clear - Hhas Hin.
      induction props as [|[k x] props IH]; simpl in *; [contradiction|].
      apply orb_false_iff in Hhas. destruct Hhas as [Hk Hrest].
      destruct Hin as [->|Hin]; [|now apply IH].
      now rewrite String.eqb_refl in Hk. }
    destruct (array_index key) as [i|] eqn:Hkey.
    + split.
      * now apply insert_index_nodup.
      * apply insert_index_ordered; try assumption.
        eapply array_index_nonneg. exact Hkey.
    + rewrite map_app. simpl. split.
      * apply NoDup_app; [assumption | repeat constructor; intros [] |].
        intros k Hk [<-|[]]. contradiction.
      * now apply ordered_append_plain.
Qed.

Lemma define_values (P : val -> Prop) (key : string) (v : val)
      (props : properties) :
  P v -> Forall (fun field => P (snd field)) props ->
  Forall (fun field => P (snd field)) (define key v props).
Proof.
  intros Hv Hall. unfold define.
  destruct (has_key key props).
  - induction Hall as [|[k x] props Hx Hall IH]; simpl; [constructor|].
    destruct (String.eqb k key); constructor; assumption.
  - destruct (array_index key) as [i|].
    + induction Hall as [|[k x] props Hx Hall IH]; simpl.
      * now repeat constructor.
      * destruct (array_index k) as [j|]; [destruct (j <=? i)%Z|];
          repeat (constructor; try assumption).
    + apply Forall_app. split; [assumption | now repeat constructor].
Qed.

End Properties.

(** ** Reading what [JSON.stringify] wrote *)

Section Reading.

Variable host : Type.
#[warning="-notation-for-abbreviation"] Local Notation val := (value host).
#[warning="-notation-for-abbreviation"]
Local Notation properties := (list (string * val)).
#[warning="-notation-for-abbreviation"]
Local Notation state := (Json.state host).

(** Whether an escape before the text exceeded the code units. *)
Variable over : bool.

Lemma is_space_cases (c : ascii) :
  is_space c = true ->
  c = " "%char \/ c = "009"%char \/ c = "010"%char \/ c = "013"%char.
Proof.
  unfold is_space.
  destruct (Ascii.eqb_spec c " "); [tauto|].
  destruct (Ascii.eqb_spec c "009"); [tauto|].
  destruct (Ascii.eqb_spec c "010"); [tauto|].
  destruct (Ascii.eqb_spec c "013"); [tauto|].
  discriminate.
Qed.

Ltac space_cases H :=
  apply is_space_cases in H; destruct H as [-> | [-> | [-> | ->]]]; reflexivity.

Lemma skip_space_value (b : bool) (stack : list (frame host)) (c : ascii)
      (rest : string) :
  is_space c = true ->
  run over (Value b, stack) (String c rest) = run over (Value b, stack) rest.
Proof. intros H. space_cases H. Qed.

Lemma skip_space_key (b : bool) (stack : list (frame host)) (c : ascii)
      (rest : string) :
  is_space c = true ->
  run over (Key b, stack) (String c rest) = run over (Key b, stack) rest.
Proof. intros H. space_cases H. Qed.

Lemma skip_space_after (stack : list (frame host)) (c : ascii)
      (rest : string) :
  is_space c = true ->
  run over (After, stack) (String c rest) = run over (After, stack) rest.
Proof. intros H. space_cases H. Qed.

(** A state that stays as it is at white space. *)
#[warning="-notation-for-abbreviation"]
Local Notation skips st :=
  (forall (c : ascii) (rest : string),
      is_space c = true -> run over st (String c rest) = run over st rest).

Lemma run_spaces (st : state) (w rest : string) :
  skips st -> JsString.forallb is_space w = true ->
  run over st (w ++ rest) = run over st rest.
Proof.
  intros Hskip. induction w as [|c w IH]; [reflexivity|].
  cbn [JsString.forallb]. intros H. apply andb_true_iff in H.
  destruct H as [Hc Hw].
  change (String c w ++ rest) with (String c (w ++ rest)).
  rewrite Hskip by exact Hc. now apply IH.
Qed.

Lemma pad_spaces (level : nat) :
  JsString.forallb is_space (JsString.repeat "  " level) = true.
Proof.
  induction level as [|level IH]; simpl; [reflexivity | exact IH].
Qed.

(** A line break and its indentation are skipped. *)
Lemma run_indent (st : state) (level : nat) (rest : string) :
  skips st ->
  run over st (Highlight.newline ++ JsString.repeat "  " level ++ rest)
  = run over st rest.
Proof.
  intros Hskip.
  change (Highlight.newline ++ ?x) with (String "010" x).
  rewrite Hskip by reflexivity.
  apply run_spaces; [assumption | apply pad_spaces].
Qed.

Lemma run_indent_more (st : state) (level : nat) (rest : string) :
  skips st ->
  run over st
      (Highlight.newline ++ JsString.repeat "  " level ++ "  " ++ rest)
  = run over st rest.
Proof.
  intros Hskip. rewrite run_indent by assumption.
  change ("  " ++ rest) with (String " " (String " " rest)).
  now rewrite !Hskip by reflexivity.
Qed.

(** *** Strings *)

Lemma run_escape_char (c : ascii) (is_key : bool) (read : string)
      (stack : list (frame host)) (rest : string) :
  run over (Text is_key read, stack) (escape_char c ++ rest)
  = run over (Text is_key (append_char read c), stack) rest.
Proof.
  destruct c as [[] [] [] [] [] [] [] []]; reflexivity.
Qed.

Lemma run_escape (s : string) (is_key : bool) (read : string)
      (stack : list (frame host)) (rest : string) :
  run over (Text is_key read, stack) (escape s ++ rest)
  = run over (Text is_key (read ++ s), stack) rest.
Proof.
  revert read. induction s as [|c s IH]; intros read; simpl.
  - now rewrite JsStringFacts.append_empty_r.
  - rewrite JsStringFacts.append_assoc, run_escape_char, IH.
    unfold append_char. now rewrite JsStringFacts.append_assoc.
Qed.

Lemma run_text (s : string) (is_key : bool) (stack : list (frame host))
      (rest : string) :
  run over (Text is_key EmptyString, stack) (escape s ++ String quote rest)
  = run over (close_text is_key s stack) rest.
Proof.
  rewrite run_escape. reflexivity.
Qed.

Lemma quote_string_append (s rest : string) :
  quote_string s ++ rest = String quote (escape s ++ String quote rest).
Proof.
  unfold quote_string. simpl. now rewrite JsStringFacts.append_assoc.
Qed.

Lemma run_string (s : string) (b : bool) (stack : list (frame host))
      (rest : string) :
  run over (Value b, stack) (quote_string s ++ rest)
  = run over (deliver (VStr s) stack) rest.
Proof.
  rewrite quote_string_append.
  change (run over (Value b, stack) (String quote (escape s ++ String quote rest)))
    with (run over (Text false EmptyString, stack) (escape s ++ String quote rest)).
  apply run_text.
Qed.

Lemma run_key (key : string) (b : bool) (props : properties)
      (stack : list (frame host)) (rest : string) :
  run over (Key b, ObjectFrame props None :: stack) (quote_string key ++ rest)
  = run over (Colon, ObjectFrame props (Some key) :: stack) rest.
Proof.
  rewrite quote_string_append.
  change (run over (Key b, ObjectFrame props None :: stack)
              (String quote (escape key ++ String quote rest)))
    with (run over (Text true EmptyString, ObjectFrame props None :: stack)
              (escape key ++ String quote rest)).
  apply run_text.
Qed.

(** *** Numbers *)

Lemma number_run_chars (literal : string) (st st' : number_state) :
  number_run st literal = Some st' ->
  JsString.forallb is_number_char literal = true.
Proof.
  revert st. induction literal as [|c literal IH]; intros st; simpl;
    [reflexivity|].
  unfold is_number_char. destruct (number_char_of c) as [k|]; [|discriminate].
  destruct (number_step st k) as [st1|]; [|discriminate].
  intros H. simpl. eapply IH. exact H.
Qed.

Lemma run_number_chars (chars : string) (literal : string)
      (stack : list (frame host)) (rest : string) :
  JsString.forallb is_number_char chars = true ->
  run over (Number literal, stack) (chars ++ rest)
  = run over (Number (literal ++ chars), stack) rest.
Proof.
  revert literal. induction chars as [|c chars IH]; intros literal; simpl.
  - now rewrite JsStringFacts.append_empty_r.
  - intros H. apply andb_true_iff in H. destruct H as [Hc Hchars].
    cbn [exceeds orb step]. rewrite Hc, IH by assumption.
    unfold append_char. now rewrite JsStringFacts.append_assoc.
Qed.

Lemma step_deliver (v : val) (stack : list (frame host)) (c : ascii) :
  step (deliver v stack) c = step_after (deliver v stack) c.
Proof.
  destruct stack as [|[done|props [key|]] stack]; reflexivity.
Qed.

Lemma completed_deliver (v : val) (stack : list (frame host)) :
  completed (deliver v stack)
  = match deliver v stack with
    | (Done v', _) => Some v'
    | _ => None
    end.
Proof.
  destruct stack as [|[done|props [key|]] stack]; reflexivity.
Qed.

(** A number literal in front of a value is read to its end. *)
Lemma run_number (literal : string) (n : float) (b : bool)
      (stack : list (frame host)) (rest : string) :
  is_number_literal literal = true -> to_number literal = n ->
  ends_number rest = true ->
  finish (run over (Value b, stack) (literal ++ rest))
  = finish (run over (deliver (VNum n) stack) rest).
Proof.
  intros Hlit Hn Hrest.
  assert (Hvalue : number_value literal = Some n)
    by (unfold number_value; now rewrite Hlit, Hn).
  destruct literal as [|c chars]; [discriminate Hlit|].
  assert (Hfirst : step (Value b, stack) c
                   = (Number (String c EmptyString), stack)
                   /\ JsString.forallb is_number_char chars = true).
  { unfold is_number_literal in Hlit. cbn [number_run] in Hlit.
    cbn [step].
    destruct (number_char_of c) as [k|]; [|discriminate Hlit].
    destruct (number_step AtStart k) as [st1|] eqn:Hstep;
      [|discriminate Hlit].
    destruct (number_run st1 chars) as [st2|] eqn:Hrun; [|discriminate Hlit].
    split; [|eapply number_run_chars; exact Hrun].
    destruct k; try discriminate Hstep; reflexivity. }
  destruct Hfirst as [Hfirst Hchars].
  change (String c chars ++ rest) with (String c (chars ++ rest)).
  cbn [run exceeds orb]. rewrite Hfirst, run_number_chars by assumption.
  change (String c EmptyString ++ chars) with (String c chars).
  destruct rest as [|c' rest]; cbn [run].
  - unfold finish. cbn [fst snd completed].
    now rewrite Hvalue, completed_deliver.
  - cbn [ends_number] in Hrest. apply negb_true_iff in Hrest.
    cbn [step exceeds orb]. rewrite Hrest, Hvalue.
    rewrite <- step_deliver.
    destruct stack as [|[done|props [key|]] stack]; reflexivity.
Qed.

(** *** Arrays and objects *)

Variable number_to_string : float -> string.

Lemma concat_cons (sep item : string) (items : list string) :
  String.concat sep (item :: items) = item ++ following sep items.
Proof.
  destruct items; simpl; [now rewrite JsStringFacts.append_empty_r|].
  reflexivity.
Qed.

Lemma following_cons (sep item : string) (items : list string) :
  following sep (item :: items) = sep ++ item ++ following sep items.
Proof.
  unfold following at 1. now rewrite concat_cons.
Qed.

(** The text of a value in front of the rest is read as that value. *)
#[warning="-notation-for-abbreviation"]
Local Notation reads level v :=
  (forall (b : bool) (stack : list (frame host)) (rest : string),
      ends_number rest = true ->
      finish (run over (Value b, stack)
                  (serialize number_to_string level v ++ rest))
      = finish (run over (deliver v stack) rest)).

#[warning="-notation-for-abbreviation"]
Local Notation separator level :=
  ("," ++ Highlight.newline ++ JsString.repeat "  " level ++ "  ").

Lemma ends_number_following (level : nat) (items : list string)
      (rest : string) :
  ends_number (following (separator level) items
               ++ Highlight.newline ++ rest) = true.
Proof.
  destruct items; reflexivity.
Qed.

(** The punctuation of arrays and objects. *)
Lemma run_open_array (b : bool) (stack : list (frame host)) (rest : string) :
  run over (Value b, stack) ("[" ++ rest)
  = run over (Value true, ArrayFrame [] :: stack) rest.
Proof. reflexivity. Qed.

Lemma run_comma_array (done : list val) (stack : list (frame host))
      (rest : string) :
  run over (After, ArrayFrame done :: stack) ("," ++ rest)
  = run over (Value false, ArrayFrame done :: stack) rest.
Proof. reflexivity. Qed.

Lemma run_close_array (done : list val) (stack : list (frame host))
      (rest : string) :
  run over (After, ArrayFrame done :: stack) ("]" ++ rest)
  = run over (deliver (VArr done) stack) rest.
Proof. reflexivity. Qed.

Lemma run_open_object (b : bool) (stack : list (frame host)) (rest : string) :
  run over (Value b, stack) ("{" ++ rest)
  = run over (Key true, ObjectFrame [] None :: stack) rest.
Proof. reflexivity. Qed.

Lemma run_comma_object (props : properties) (stack : list (frame host))
      (rest : string) :
  run over (After, ObjectFrame props None :: stack) ("," ++ rest)
  = run over (Key false, ObjectFrame props None :: stack) rest.
Proof. reflexivity. Qed.

Lemma run_close_object (props : properties) (stack : list (frame host))
      (rest : string) :
  run over (After, ObjectFrame props None :: stack) ("}" ++ rest)
  = run over (deliver (VObj props) stack) rest.
Proof. reflexivity. Qed.

Lemma run_colon (props : properties) (key : string)
      (stack : list (frame host)) (rest : string) :
  run over (Colon, ObjectFrame props (Some key) :: stack) (": " ++ rest)
  = run over (Value false, ObjectFrame props (Some key) :: stack) rest.
Proof. reflexivity. Qed.

Lemma run_elements (level : nat) (stack : list (frame host)) (rest : string)
      (elems : list val) :
  Forall (fun e => reads (S level) e) elems ->
  forall done : list val,
    finish (run over (After, ArrayFrame done :: stack)
                (following (separator level)
                           (map (serialize number_to_string (S level)) elems)
                 ++ Highlight.newline ++ JsString.repeat "  " level
                 ++ "]" ++ rest))
    = finish (run over (deliver (VArr (done ++ elems)) stack) rest).
Proof.
  induction 1 as [|e elems He Helems IH]; intros done.
  - cbn [map following]. change (EmptyString ++ ?x) with x.
    rewrite run_indent by apply skip_space_after.
    now rewrite run_close_array, app_nil_r.
  - cbn [map]. rewrite following_cons, !JsStringFacts.append_assoc.
    rewrite run_comma_array.
    rewrite run_indent_more by apply skip_space_value.
    rewrite He by apply ends_number_following.
    cbn [deliver]. rewrite IH, <- app_assoc. reflexivity.
Qed.

Lemma serialize_array (level : nat) (e : val) (elems : list val) :
  serialize number_to_string level (VArr (e :: elems))
  = Highlight.block "[" "]" (JsString.repeat "  " level)
      (map (serialize number_to_string (S level)) (e :: elems)).
Proof. reflexivity. Qed.

Lemma reads_array (level : nat) (elems : list val) :
  Forall (fun e => reads (S level) e) elems -> reads level (VArr elems).
Proof.
  intros Helems b stack rest Hrest.
  destruct Helems as [|e elems He Helems]; [reflexivity|].
  rewrite serialize_array. unfold Highlight.block. cbn [map].
  rewrite concat_cons, !JsStringFacts.append_assoc.
  rewrite run_open_array.
  rewrite run_indent_more by apply skip_space_value.
  rewrite He by apply ends_number_following.
  cbn [deliver]. apply (run_elements level stack rest elems Helems).
Qed.

#[warning="-notation-for-abbreviation"]
Local Notation member level :=
  (fun field : string * val =>
     quote_string (fst field) ++ ": "
     ++ serialize number_to_string (S level) (snd field)).

Lemma run_member (level : nat) (key : string) (v : val) (b : bool)
      (props : properties) (stack : list (frame host)) (rest : string) :
  reads (S level) v -> ends_number rest = true ->
  finish (run over (Key b, ObjectFrame props None :: stack)
              (quote_string key ++ ": "
               ++ serialize number_to_string (S level) v ++ rest))
  = finish (run over (After, ObjectFrame (define key v props) None :: stack) rest).
Proof.
  intros Hv Hrest. rewrite run_key, run_colon. now rewrite Hv.
Qed.

Lemma run_members (level : nat) (stack : list (frame host)) (rest : string)
      (fields : properties) :
  Forall (fun field => reads (S level) (snd field)) fields ->
  forall done : properties,
    normal_properties (done ++ fields) ->
    finish (run over (After, ObjectFrame done None :: stack)
                (following (separator level) (map (member level) fields)
                 ++ Highlight.newline ++ JsString.repeat "  " level
                 ++ "}" ++ rest))
    = finish (run over (deliver (VObj (done ++ fields)) stack) rest).
Proof.
  induction 1 as [|[key v] fields Hv Hfields IH]; intros done Hnormal.
  - cbn [map following]. change (EmptyString ++ ?x) with x.
    rewrite run_indent by apply skip_space_after.
    now rewrite run_close_object, app_nil_r.
  - cbn [map fst snd]. rewrite following_cons, !JsStringFacts.append_assoc.
    rewrite run_comma_object.
    rewrite run_indent_more by apply skip_space_key.
    rewrite run_member; [|exact Hv | apply ends_number_following].
    rewrite define_append.
    + rewrite IH; rewrite <- app_assoc; [reflexivity | exact Hnormal].
    + apply normal_properties_prefix with (b := fields).
      now rewrite <- app_assoc.
Qed.

Lemma normal_serializable (v : val) : normal v -> serializable v = true.
Proof. now destruct 1. Qed.

Lemma serialize_object (level : nat) (fields : properties) :
  Forall (fun field => normal (snd field)) fields ->
  serialize number_to_string level (VObj fields)
  = match fields with
    | [] => "{}"
    | _ :: _ =>
        Highlight.block "{" "}" (JsString.repeat "  " level)
                        (map (member level) fields)
    end.
Proof.
  intros Hfields.
  assert (Hmembers :
            flat_map (fun field : string * val =>
                        if serializable (snd field)
                        then [quote_string (fst field) ++ ": "
                              ++ serialize number_to_string (S level)
                                           (snd field)]
                        else [])
                     fields
            = map (member level) fields).
  { induction Hfields as [|field fields Hfield Hfields IH];
      [reflexivity|].
    cbn [flat_map map]. rewrite IH, (normal_serializable _ Hfield).
    reflexivity. }
  change (serialize number_to_string level (VObj fields))
    with (match flat_map (fun field : string * val =>
                            if serializable (snd field)
                            then [quote_string (fst field) ++ ": "
                              ++ serialize number_to_string (S level)
                                           (snd field)]
                        else [])
                         fields
          with
          | [] => "{}"
          | (_ :: _) as members =>
              Highlight.block "{" "}" (JsString.repeat "  " level) members
          end).
  rewrite Hmembers. now destruct fields.
Qed.

Lemma reads_object (level : nat) (fields : properties) :
  normal_properties fields ->
  Forall (fun field => normal (snd field)) fields ->
  Forall (fun field => reads (S level) (snd field)) fields ->
  reads level (VObj fields).
Proof.
  intros Hnormal Hvalues Hfields b stack rest Hrest.
  rewrite serialize_object by assumption.
  destruct Hfields as [|[key v] fields Hv Hfields]; [reflexivity|].
  unfold Highlight.block. cbn [map fst snd].
  rewrite concat_cons, !JsStringFacts.append_assoc.
  rewrite run_open_object.
  rewrite run_indent_more by apply skip_space_key.
  rewrite run_member; [|exact Hv | apply ends_number_following].
  rewrite (define_append host key v []) by
    (apply normal_properties_prefix with (b := fields); exact Hnormal).
  apply (run_members level stack rest fields Hfields [(key, v)] Hnormal).
Qed.

(** Every value in normal form whose numbers read back is read from its
    text, at every nesting level and in front of every rest at which a
    number ends. *)
Lemma reads_value (v : val) :
  normal v -> Forall (reads_back number_to_string) (numbers v) ->
  forall level : nat, reads level v.
Proof.
  induction v as [| |bb|n|s|elems IH|fields IH|h]
    using HighlightFacts.value_nested_ind;
    intros Hnormal Hnumbers level; try solve [inversion Hnormal].
  - intros b stack rest _. reflexivity.
  - intros b stack rest _. destruct bb; reflexivity.
  - intros b stack rest Hrest. cbn [numbers] in Hnumbers.
    inversion Hnumbers as [|? ? [Hfinite [Hliteral Hvalue]] _]; subst.
    cbn [serialize]. unfold number_text. rewrite Hfinite.
    now apply run_number.
  - intros b stack rest _. cbn [serialize]. now rewrite run_string.
  - apply reads_array. inversion Hnormal as [| | | |? Helems|]; subst.
    cbn [numbers] in Hnumbers. clear Hnormal.
    induction IH as [|e elems He _ IHelems]; [constructor|].
    inversion Helems; subst. cbn [flat_map] in Hnumbers.
    apply Forall_app in Hnumbers. destruct Hnumbers as [Hn Hns].
    constructor; [now apply He | now apply IHelems].
  - inversion Hnormal as [| | | | |? Hprops Hvalues]; subst.
    apply reads_object; try assumption.
    cbn [numbers] in Hnumbers. clear Hnormal Hprops.
    induction IH as [|field fields Hfield _ IHfields]; [constructor|].
    inversion Hvalues; subst. cbn [flat_map] in Hnumbers.
    apply Forall_app in Hnumbers. destruct Hnumbers as [Hn Hns].
    constructor; [now apply Hfield | now apply IHfields].
Qed.

End Reading.

(** [JSON.parse] reads the text of [JSON.stringify] back as the value. *)
Lemma parse_serialize (host : Type) (number_to_string : float -> string)
      (v : value host) :
  normal v -> Forall (reads_back number_to_string) (numbers v) ->
  parse host (serialize number_to_string 0 v) = Accepted v.
Proof.
  intros Hnormal Hnumbers. unfold parse.
  rewrite <- (JsStringFacts.append_empty_r (serialize number_to_string 0 v)).
  now rewrite (reads_value host false number_to_string v Hnormal Hnumbers
                           0 false [] EmptyString).
Qed.

(** ** What [JSON.parse] returns is in normal form *)

Section Invariant.

Variable host : Type.
#[warning="-notation-for-abbreviation"] Local Notation val := (value host).
#[warning="-notation-for-abbreviation"]
Local Notation state := (Json.state host).

Lemma failed_normal : state_normal (@failed host).
Proof. split; constructor. Qed.

Lemma deliver_normal (v : val) (stack : list (frame host)) :
  normal v -> Forall frame_normal stack -> state_normal (deliver v stack).
Proof.
  intros Hv Hstack.
  destruct Hstack as [|[done|props [key|]] stack Hframe Hstack];
    cbn [deliver]; try apply failed_normal; split; try exact I;
    try assumption; try constructor; try assumption; cbn [frame_normal].
  - apply Forall_app. split; [exact Hframe | now repeat constructor].
  - destruct Hframe as [Hprops Hvalues]. split.
    + now apply define_normal.
    + now apply define_values.
Qed.

Lemma close_text_normal (is_key : bool) (read : string)
      (stack : list (frame host)) :
  Forall frame_normal stack -> state_normal (close_text is_key read stack).
Proof.
  intros Hstack. unfold close_text. destruct is_key.
  - destruct Hstack as [|[done|props [key|]] stack Hframe Hstack];
      try apply failed_normal.
    split; [exact I | now constructor].
  - apply deliver_normal; [constructor | assumption].
Qed.

Lemma step_after_normal (st : state) (c : ascii) :
  state_normal st -> state_normal (step_after st c).
Proof.
  destruct st as [m stack]. intros [Hm Hstack]. cbn [fst snd] in Hm, Hstack.
  destruct m; cbn [step_after]; try apply failed_normal.
  - destruct (is_space c); [now split|].
    destruct (Ascii.eqb c ",").
    { destruct stack as [|[done|props [key|]] stack];
        try apply failed_normal; now split. }
    destruct (Ascii.eqb c "]").
    { destruct Hstack as [|[done|props key] stack Hframe Hstack];
        try apply failed_normal.
      apply deliver_normal; [now constructor | assumption]. }
    destruct (Ascii.eqb c "}"); [|apply failed_normal].
    destruct Hstack as [|[done|props [key|]] stack Hframe Hstack];
      try apply failed_normal.
    destruct Hframe as [Hprops Hvalues].
    apply deliver_normal; [now constructor | assumption].
  - destruct (is_space c); [now split | apply failed_normal].
Qed.

Lemma step_normal (st : state) (c : ascii) :
  state_normal st -> state_normal (step st c).
Proof.
  destruct st as [m stack]. intros Hst. pose proof Hst as [Hm Hstack].
  cbn [fst snd] in Hm, Hstack.
  destruct m; cbn [step]; try (now apply step_after_normal);
    try apply failed_normal.
  - destruct (number_char_of c) as [[d| | | |]|]; try (now split);
      (destruct (is_space c); [now split|]);
      (destruct (Ascii.eqb c "[");
       [split; [exact I | constructor; [constructor | assumption]]|]);
      (destruct (Ascii.eqb c "{");
       [split; [exact I
               | constructor;
                 [split; [split; constructor | constructor] | assumption]]|]);
      (destruct (Ascii.eqb c "]" && may_close);
       [destruct Hstack as [|[[|e done]|props key] stack Hframe Hstack];
        try apply failed_normal;
        apply deliver_normal; [repeat constructor | assumption]|]);
      (destruct (Ascii.eqb c quote); [now split|]);
      (destruct (Ascii.eqb c "n"); [split; [constructor | assumption]|]);
      (destruct (Ascii.eqb c "t"); [split; [constructor | assumption]|]);
      (destruct (Ascii.eqb c "f"); [split; [constructor | assumption]|]);
      apply failed_normal.
  - destruct (is_space c); [now split|].
    destruct (Ascii.eqb c quote); [now split|].
    destruct (Ascii.eqb c "}" && may_close); [|apply failed_normal].
    destruct Hstack as [|[done|[|field props] [key|]] stack Hframe Hstack];
      try apply failed_normal.
    apply deliver_normal; [|assumption].
    constructor; [split; constructor | constructor].
  - destruct (is_space c); [now split|].
    destruct (Ascii.eqb c ":"); [now split | apply failed_normal].
  - destruct (Ascii.eqb c quote); [now apply close_text_normal|].
    destruct (Ascii.eqb c backslash); [now split|].
    destruct (nat_of_ascii c <? 32)%nat; [apply failed_normal | now split].
  - destruct (simple_escape c); [now split|].
    destruct (Ascii.eqb c "u"); [now split | apply failed_normal].
  - destruct (hex_value c); [|apply failed_normal].
    destruct (count <? 3)%nat; now split.
  - destruct (is_number_char c); [now split|].
    destruct (number_value literal); [|apply failed_normal].
    apply step_after_normal, deliver_normal; [constructor | assumption].
  - destruct remaining as [|r remaining]; [apply failed_normal|].
    destruct (Ascii.eqb c r); [|apply failed_normal].
    destruct remaining; [now apply deliver_normal | now split].
Qed.

Lemma run_normal (text : string) (over : bool) (st : state) :
  state_normal st -> state_normal (fst (run over st text)).
Proof.
  revert over st.
  induction text as [|c text IH]; intros over st Hst; [exact Hst|].
  apply IH, step_normal, Hst.
Qed.

Lemma completed_normal (st : state) (v : val) :
  state_normal st -> completed st = Some v -> normal v.
Proof.
  destruct st as [m stack]. intros [Hm Hstack].
  cbn [fst snd] in Hm, Hstack.
  destruct m; cbn [completed]; try discriminate.
  - destruct (number_value literal) as [n|]; [|discriminate].
    pose proof (deliver_normal (VNum n) stack (normal_num host n) Hstack) as Hd.
    destruct (deliver (VNum n) stack) as [[] stack']; try discriminate.
    intros [= <-]. exact (proj1 Hd).
  - intros [= <-]. exact Hm.
Qed.

Lemma finish_normal (result : state * bool) (v : val) :
  state_normal (fst result) -> finish result = Accepted v -> normal v.
Proof.
  unfold finish. intros Hst.
  destruct (completed (fst result)) as [v'|] eqn:Hv; [|discriminate].
  destruct (snd result); [discriminate|].
  intros [= <-]. eapply completed_normal; eassumption.
Qed.

(** The value of an accepted text is in normal form. *)
Lemma parse_normal (text : string) (v : val) :
  parse host text = Accepted v -> normal v.
Proof.
  apply finish_normal, run_normal. split; [exact I | constructor].
Qed.

End Invariant.

End JsonFacts.

(* ================================================================== *)
(** * The program on a runtime that follows the standard *)
(* ================================================================== *)

Module StandardFacts.

Import Js Json Cli.
Local Open Scope string_scope.

(** The built-ins of the example follow the standard. *)
Lemma builtin_parse_standard : standard_parse Example.builtin_parse.
Proof.
  intros text. unfold Example.builtin_parse.
  destruct (parse (host Node.runtime) text); eauto.
Qed.

Lemma builtin_stringify_standard :
  standard_stringify Number.toString
    (@stringify (host Node.runtime) Number.toString Example.builtin_json).
Proof.
  intros v Hnormal. now destruct Hnormal.
Qed.






End StandardFacts.
